(** * Hayashi: extraction offsets, page-pixmap cache, progressive rendering

    A shallow embedding of [hayashi.py] (classes [LRUCache], [DocModel]
    and the rendering part of [PdfView]) together with the properties its
    specification states about them.

    Conventions.
    - A Python [str] is a list of code points ([pystr]); [len] is [length].
    - A Python call that may raise returns an [outcome] (or an [option]
      whose [None] stands for the exception).
    - The PDF decoder (PyMuPDF) and the Qt image classes are outside the
      program: a document is the data the decoder reported for it while
      it was read, and the calls [render_page] makes later (loading the
      page, the rasterisation pipeline) are answered by a [Decoder]
      record that may differ from one call to the next.
    - [QWidget.mapTo] is Qt's: it walks up the parents of a widget, and
      does not return when the widget it is given is not among them; a
      call that does not return is the [None] of an [option].
    - Cursor shapes, widget layout and [update_display] only touch the
      screen and are left out. *)

From Stdlib Require Import ZArith List String Ascii Floats.PrimFloat Uint63.
From stdpp Require Import gmap list.

Open Scope Z_scope.

(** * Part I: the program *)

(** ** Python values used by the program *)

Module Py.

Abbreviation pystr := (list N).

(** What a call leaves behind: a value, or an exception. *)
Inductive outcome (A : Type) : Type :=
| Returned (a : A)
| Raised.
Arguments Returned {A} a.
Arguments Raised {A}.

(** A literal without escapes. *)
Definition lit (s : string) : pystr := map N_of_ascii (list_ascii_of_string s).

(** The newline character, and the separator written ["\n\n"] in the source. *)
Definition nl : pystr := [10%N].
Definition nl2 : pystr := [10%N; 10%N].

(** [c.isspace()] for a single code point: the characters [strip] and
    [rstrip] remove when called without an argument. *)
Definition isspace (c : N) : bool :=
  (((9 <=? c) && (c <=? 13)) || ((28 <=? c) && (c <=? 32))
   || (c =? 133) || (c =? 160) || (c =? 5760)
   || ((8192 <=? c) && (c <=? 8202)) || (c =? 8232) || (c =? 8233)
   || (c =? 8239) || (c =? 8287) || (c =? 12288))%N.

(** [s.lstrip()] *)
Fixpoint lstrip (s : pystr) : pystr :=
  match s with
  | [] => []
  | c :: r => if isspace c then lstrip r else s
  end.

(** [s.rstrip()] *)
Fixpoint rstrip (s : pystr) : pystr :=
  match s with
  | [] => []
  | c :: r =>
      match rstrip r with
      | [] => if isspace c then [] else [c]
      | r' => c :: r'
      end
  end.

(** [s.strip()] *)
Definition strip (s : pystr) : pystr := rstrip (lstrip s).

(** [bool(s)] for a string or a list. *)
Definition nonempty {A} (l : list A) : bool :=
  match l with [] => false | _ => true end.

(** [x or ""] where [x] may be [None]. *)
Definition or_empty (x : option pystr) : pystr := default [] x.

(** [sep.join(l)] *)
Fixpoint join (sep : pystr) (l : list pystr) : pystr :=
  match l with
  | [] => []
  | [s] => s
  | s :: r => s ++ sep ++ join sep r
  end.

(** ["".join(l)] *)
Definition join0 (l : list pystr) : pystr := concat l.

Fixpoint digits (u : Decimal.uint) : pystr :=
  match u with
  | Decimal.Nil => []
  | Decimal.D0 r => 48%N :: digits r
  | Decimal.D1 r => 49%N :: digits r
  | Decimal.D2 r => 50%N :: digits r
  | Decimal.D3 r => 51%N :: digits r
  | Decimal.D4 r => 52%N :: digits r
  | Decimal.D5 r => 53%N :: digits r
  | Decimal.D6 r => 54%N :: digits r
  | Decimal.D7 r => 55%N :: digits r
  | Decimal.D8 r => 56%N :: digits r
  | Decimal.D9 r => 57%N :: digits r
  end.

(** [str(n)] for a natural number, as an f-string prints it. *)
Definition str_of_nat (n : nat) : pystr := digits (Nat.to_uint n).

(** [s[a:b]] for indices that are not negative. *)
Definition slice {A} (s : list A) (a b : nat) : list A := take (b - a) (drop a s).

(** Where [l[i]] looks, with Python's negative indices; [None] is
    [IndexError]. *)
Definition position {A} (l : list A) (i : Z) : option nat :=
  let n := Z.of_nat (length l) in
  if i <? 0 then (if n + i <? 0 then None else Some (Z.to_nat (n + i)))
  else if i <? n then Some (Z.to_nat i) else None.

(** [l[i]] *)
Definition index {A} (l : list A) (i : Z) : option A :=
  match position l i with
  | Some p => l !! p
  | None => None
  end.

(** [str(z)] for an integer. *)
Definition str_of_Z (z : Z) : pystr :=
  if z <? 0 then lit "-" ++ str_of_nat (Z.to_nat (- z)) else str_of_nat (Z.to_nat z).

(** [float(z)] for an integer the program divides by a float. Exact for
    [0 <= z < 2^53], which covers resolutions and pixmap sizes. *)
Definition float_of_Z (z : Z) : float := PrimFloat.of_uint63 (Uint63.of_Z z).

(** [max(a, b)] and [min(a, b)] on floats: the first argument wins unless
    the second is strictly beyond it. *)
Definition fmax (a b : float) : float := if PrimFloat.ltb a b then b else a.
Definition fmin (a b : float) : float := if PrimFloat.ltb b a then b else a.

End Py.
Import Py.

(** The last [n] elements of [l] (all of [l] when it is shorter). *)
Definition lastn {A} (n : nat) (l : list A) : list A := drop (length l - n) l.

(** ** [class LRUCache]

    [self.d] is a [collections.OrderedDict]: an association list with
    unique keys, oldest entry first.  [self.max] is a Python [int]. *)

Module LRUCache.
Section Cache.
Context {K V : Type} `{EqDecision K}.

Record t := mk { max : Z; d : list (K * V) }.

(** [LRUCache(max_items)] *)
Definition init (max_items : Z) : t := {| max := max_items; d := [] |}.

(** [self.d.get(k)]: the value under [k], if any. *)
Fixpoint od_get (k : K) (l : list (K * V)) : option V :=
  match l with
  | [] => None
  | (k', v) :: r => if decide (k = k') then Some v else od_get k r
  end.

(** The dictionary left by [self.d.pop(k)]. *)
Fixpoint od_pop (k : K) (l : list (K * V)) : list (K * V) :=
  match l with
  | [] => []
  | (k', v) :: r => if decide (k = k') then r else (k', v) :: od_pop k r
  end.

(** [self.d[k] = v]: an existing key keeps its place, a new one goes last. *)
Fixpoint od_setitem (k : K) (v : V) (l : list (K * V)) : list (K * V) :=
  match l with
  | [] => [(k, v)]
  | (k', v') :: r =>
      if decide (k = k') then (k, v) :: r else (k', v') :: od_setitem k v r
  end.

(** [while len(self.d) > self.max: self.d.popitem(last=False)].
    [popitem] on an empty dictionary raises [KeyError]; the dictionary is
    returned as the loop leaves it. *)
Fixpoint evict (mx : Z) (l : list (K * V)) : outcome unit * list (K * V) :=
  if Z.of_nat (length l) >? mx then
    match l with
    | [] => (Raised, [])
    | _ :: r => evict mx r
    end
  else (Returned (), l).

(** [get(self, k)]: the returned value ([None] for Python's [None]) and
    the cache afterwards. *)
Definition get (c : t) (k : K) : option V * t :=
  match od_get k (d c) with
  | Some v => (Some v, {| max := max c; d := od_setitem k v (od_pop k (d c)) |})
  | None => (None, c)
  end.

(** [put(self, k, v)] *)
Definition put (c : t) (k : K) (v : V) : outcome unit * t :=
  let d1 := match od_get k (d c) with Some _ => od_pop k (d c) | None => d c end in
  let d2 := od_setitem k v d1 in
  let '(r, d3) := evict (max c) d2 in
  (r, {| max := max c; d := d3 |}).

(** A caller's request. *)
Inductive op := Get (k : K) | Put (k : K) (v : V).

Definition step (c : t) (o : op) : outcome unit * t :=
  match o with
  | Get k => (Returned (), (get c k).2)
  | Put k v => put c k v
  end.

(** A sequence of requests; it ends at the first one that raises. *)
Fixpoint run (ops : list op) (c : t) : outcome unit * t :=
  match ops with
  | [] => (Returned (), c)
  | o :: r =>
      match step c o with
      | (Returned _, c') => run r c'
      | (Raised, c') => (Raised, c')
      end
  end.

(** [put] of each pair in turn. *)
Definition put_all (c : t) (kvs : list (K * V)) : outcome unit * t :=
  run (map (fun kv => Put kv.1 kv.2) kvs) c.

(** The dictionary invariant: keys are unique. *)
Definition wf (c : t) : Prop := NoDup (d c).*1.

(** The dictionary left by [pop] of each key of [ks] in turn. *)
Definition pop_all (ks : list K) (l : list (K * V)) : list (K * V) :=
  foldl (fun acc k => od_pop k acc) l ks.

End Cache.
Arguments t : clear implicits.
Arguments op : clear implicits.
End LRUCache.

(** ** What the decoder reports for a document *)

(** A value found under ["xref"] or ["image"]: a number or raw bytes. *)
Inductive imgref :=
| XInt (n : Z)
| XBytes (b : list N).

(** [bool(x)] for such a value, [None] included. *)
Definition truthy (x : option imgref) : bool :=
  match x with
  | None => false
  | Some (XInt n) => negb (n =? 0)
  | Some (XBytes b) => nonempty b
  end.

(** [a or b] *)
Definition py_or (a b : option imgref) : option imgref :=
  if truthy a then a else b.

(** A bounding box [(x0, y0, x1, y1)]. *)
Abbreviation BBox := (float * float * float * float)%type.

(** Entries of [page.get_text("rawdict")]; a missing key is [None]. *)
Record Span := { sp_text : option pystr }.
Record Line := { ln_spans : option (list Span) }.
Record Block := {
  blk_type : option Z;
  blk_bbox : option BBox;
  blk_lines : option (list Line);
  blk_xref : option imgref;
  blk_image : option imgref }.

(** A page: [get_text("text")], the first component of every entry of
    [get_images(full=False)] ([None] when that call raises), the
    ["blocks"] entry of [get_text("rawdict")], and [rect.height]. *)
Record Page := {
  get_text : option pystr;
  get_images : option (list Z);
  rawdict_blocks : option (list Block);
  rect_height : float }.

(** ** Images and the rasterisation calls *)

Inductive Format := Format_Grayscale8 | Format_RGB888 | Format_RGBA8888.

(** A [fitz.Pixmap]. *)
Record Pixmap := {
  pix_width : Z;
  pix_height : Z;
  pix_n : Z;
  pix_stride : Z;
  pix_samples : list N }.

(** A [QImage], by the way the program obtains it. *)
Inductive QImage :=
| FromData (data : list N)
| FromSamples (samples : list N) (w h stride : Z) (fmt : Format)
| Tile (w h : Z) (fmt : Format) (fill pen : Z * Z * Z) (x y : Z) (text : pystr).

(** How the calls of [render_page] answer: [self.doc[pno]], which loads
    the page, and the calls inside the [try] block. [None] and [true]
    stand for an exception. *)
Record Decoder := {
  load_page_raises : Z -> bool;
  get_pixmap : Page -> float -> option Pixmap;
  tobytes_png : Pixmap -> option (list N);
  fromData_raises : list N -> bool;
  fromSamples_raises : Pixmap -> bool }.

(** ** [class DocModel] *)

Module DocModel.

Inductive Mode := simple | structured.

(** A value of [self.figures]. *)
Record Figure := { page : nat; xref : imgref; bbox : option BBox }.

(** The cache key built by [_page_key]. *)
Abbreviation Key := (Z * Z * Z)%type.

Record t := mk {
  doc : option (list Page);
  page_count : nat;
  dpi : Z;
  mode : Mode;
  strip_headers : bool;
  merged_text : pystr;
  figures : gmap nat Figure;
  page_offsets : list (nat * nat);
  page_pix_cache : LRUCache.t Key QImage }.

(** [DocModel(pdf_path, dpi, mode, strip_headers)] *)
Definition init (dpi0 : Z) (mode0 : Mode) (strip : bool) : t :=
  {| doc := None; page_count := 0;
     dpi := Z.max 72 (Z.min dpi0 220); mode := mode0; strip_headers := strip;
     merged_text := []; figures := ∅; page_offsets := [];
     page_pix_cache := LRUCache.init 20 |}.

(** The locals of a build loop together with the two containers it fills. *)
Record build_st := mk_st {
  parts : list pystr;
  char_count : nat;
  fig_id : nat;
  figs : gmap nat Figure;
  offs : list (nat * nat) }.

(** [parts.append(s); char_count += n] *)
Definition append_part (s : pystr) (n : nat) (st : build_st) : build_st :=
  mk_st (parts st ++ [s]) (char_count st + n) (fig_id st) (figs st) (offs st).

(** [fig_id += 1] *)
Definition next_fig (st : build_st) : build_st :=
  mk_st (parts st) (char_count st) (S (fig_id st)) (figs st) (offs st).

(** [self.figures[fig_id] = f] *)
Definition register (f : Figure) (st : build_st) : build_st :=
  mk_st (parts st) (char_count st) (fig_id st) (<[fig_id st := f]> (figs st)) (offs st).

(** [self.page_offsets.append((start, char_count))] *)
Definition record_offsets (start : nat) (st : build_st) : build_st :=
  mk_st (parts st) (char_count st) (fig_id st) (figs st)
        (offs st ++ [(start, char_count st)]).

(** [f"[FIGURE {fig_id} (p{pno+1})]"] *)
Definition figure_mark (fid pno : nat) : pystr :=
  lit "[FIGURE " ++ str_of_nat fid ++ lit " (p" ++ str_of_nat (pno + 1) ++ lit ")]".

(** The [for info in imgs] loop of [_build_simple]. *)
Fixpoint simple_marks (pno : nat) (imgs : list Z) (marks : list pystr)
    (st : build_st) : list pystr * build_st :=
  match imgs with
  | [] => (marks, st)
  | x :: r =>
      let st1 := next_fig st in
      let marks1 := marks ++ [figure_mark (fig_id st1) pno] in
      simple_marks pno r marks1
        (register {| page := pno; xref := XInt x; bbox := None |} st1)
  end.

(** One iteration of the page loop of [_build_simple]. *)
Definition simple_page (pno : nat) (pg : Page) (st : build_st) : build_st :=
  let start := char_count st in
  let txt := strip (or_empty (get_text pg)) in
  let st1 :=
    if nonempty txt
    then append_part nl2 2 (append_part txt (length txt) st)
    else st in
  let imgs := default [] (get_images pg) in
  let st2 :=
    if nonempty imgs then
      let '(marks, st') := simple_marks pno imgs [] st1 in
      let m := join (lit " ") marks in
      append_part nl2 2 (append_part m (length m) st')
    else st1 in
  record_offsets start st2.

(** ["".join(sp.get("text","") for sp in line.get("spans",[]))] *)
Definition line_text (ln : Line) : pystr :=
  join0 (map (fun sp => or_empty (sp_text sp)) (default [] (ln_spans ln))).

(** The [for line in blk.get("lines",[])] loop; the flag is [wrote]. *)
Fixpoint text_lines (lns : list Line) (w : bool) (st : build_st) : bool * build_st :=
  match lns with
  | [] => (w, st)
  | ln :: r =>
      let s := line_text ln in
      if nonempty (strip s)
      then text_lines r true (append_part nl 1 (append_part s (length s) st))
      else text_lines r w st
  end.

(** [blk.get("bbox",[0,0,0,0])] *)
Definition bbox_of (blk : Block) : BBox :=
  default (0%float, 0%float, 0%float, 0%float) (blk_bbox blk).

(** The test that drops a text block as header or footer:
    [y1 <= top_cut or y0 >= bot_cut] with [top_cut = 60] and
    [bot_cut = page_h - 60]. *)
Definition in_margin (page_h : float) (blk : Block) : bool :=
  let '(_, y0, _, y1) := bbox_of blk in
  PrimFloat.leb y1 60 || PrimFloat.leb (PrimFloat.sub page_h 60) y0.

(** The [for blk in raw.get("blocks",[])] loop of [_build_structured]. *)
Fixpoint structured_blocks (hdr : bool) (page_h : float) (pno : nat)
    (blks : list Block) (w : bool) (st : build_st) : bool * build_st :=
  match blks with
  | [] => (w, st)
  | blk :: r =>
      let btype := default 0 (blk_type blk) in
      if hdr && (btype =? 0) && in_margin page_h blk
      then structured_blocks hdr page_h pno r w st
      else if btype =? 0 then
        let '(w1, st1) := text_lines (default [] (blk_lines blk)) w st in
        structured_blocks hdr page_h pno r w1 (append_part nl 1 st1)
      else if btype =? 1 then
        let x := py_or (blk_xref blk) (blk_image blk) in
        match x with
        | Some xv =>
            if truthy x then
              let st1 := next_fig st in
              let mark := figure_mark (fig_id st1) pno in
              let st2 := append_part nl2 2 (append_part mark (length mark) st1) in
              structured_blocks hdr page_h pno r w
                (register {| page := pno; xref := xv; bbox := Some (bbox_of blk) |} st2)
            else structured_blocks hdr page_h pno r w st
        | None => structured_blocks hdr page_h pno r w st
        end
      else structured_blocks hdr page_h pno r w st
  end.

(** One iteration of the page loop of [_build_structured]. *)
Definition structured_page (hdr : bool) (pno : nat) (pg : Page)
    (st : build_st) : build_st :=
  let start := char_count st in
  let '(wrote, st1) :=
    structured_blocks hdr (rect_height pg) pno
      (default [] (rawdict_blocks pg)) false st in
  let st2 :=
    if wrote then st1
    else
      let txt := strip (or_empty (get_text pg)) in
      if nonempty txt
      then append_part nl2 2 (append_part txt (length txt) st1)
      else st1 in
  record_offsets start st2.

(** [for pno in range(...): page = self.doc[pno]; ...]: the page loop,
    over the indices still to visit. [self.doc[pno]] raises when there is
    no document or no such page. *)
Fixpoint page_loop (body : nat -> Page -> build_st -> build_st)
    (dc : option (list Page)) (pnos : list nat) (st : build_st) : outcome build_st :=
  match pnos with
  | [] => Returned st
  | pno :: r =>
      match dc with
      | None => Raised
      | Some pages =>
          match pages !! pno with
          | None => Raised
          | Some pg => page_loop body dc r (body pno pg st)
          end
      end
  end.

(** [self.figures.clear()] and [self.page_offsets.clear()] *)
Definition dict_clear (f : gmap nat Figure) : gmap nat Figure := ∅.
Definition list_clear (l : list (nat * nat)) : list (nat * nat) := [].

(** The state in which the page loop of either build starts. *)
Definition build_start (m : t) : build_st :=
  mk_st [] 0 0 (dict_clear (figures m)) (list_clear (page_offsets m)).

(** The page loop of the build selected by [md], from its start to its end. *)
Definition build_loop (md : Mode) (m : t) : outcome build_st :=
  let body :=
    match md with
    | simple => simple_page
    | structured => structured_page (strip_headers m)
    end in
  page_loop body (doc m) (seq 0 (page_count m)) (build_start m).

(** The buffer ["".join(parts)] before [rstrip]. *)
Definition buffer (st : build_st) : pystr := join0 (parts st).

(** The assignments that end a build. *)
Definition finish (m : t) (st : build_st) : t :=
  mk (doc m) (page_count m) (dpi m) (mode m) (strip_headers m)
     (rstrip (buffer st)) (figs st) (offs st) (page_pix_cache m).

(** [_build_simple(self)] and [_build_structured(self)] *)
Definition _build (md : Mode) (m : t) : outcome t :=
  match build_loop md m with
  | Returned st => Returned (finish m st)
  | Raised => Raised
  end.
Definition _build_simple : t -> outcome t := _build simple.
Definition _build_structured : t -> outcome t := _build structured.

(** [open(self)], where [pages] is what [fitz.open] returns for the path. *)
Definition open (pages : list Page) (m : t) : outcome t :=
  let m1 := mk (Some pages) (length pages) (dpi m) (mode m) (strip_headers m)
               (merged_text m) (figures m) (page_offsets m) (page_pix_cache m) in
  match mode m with
  | simple => _build_simple m1
  | structured => _build_structured m1
  end.

(** [close(self)]. The test [if self.doc:] fails without a document and,
    a document having a [len], for a document without pages: that one is
    neither closed nor dropped. *)
Definition close (m : t) : t :=
  match doc m with
  | Some (_ :: _) =>
      mk None (page_count m) (dpi m) (mode m) (strip_headers m)
         (merged_text m) (figures m) (page_offsets m) (page_pix_cache m)
  | Some [] => m
  | None => m
  end.

(** [self._page_key(pno, safe)] *)
Definition _page_key (m : t) (pno : Z) (safe : bool) : Key :=
  (pno, dpi m, if safe then 1 else 0).

Definition with_cache (m : t) (c : LRUCache.t Key QImage) : t :=
  mk (doc m) (page_count m) (dpi m) (mode m) (strip_headers m)
     (merged_text m) (figures m) (page_offsets m) c.

(** The image built in the [except] branch of [render_page]. *)
Definition failure_tile (pno : Z) : QImage :=
  Tile 320 200 Format_RGB888 (40, 40, 40) (255, 200, 0) 10 100
       (lit "Render failed p" ++ str_of_Z (pno + 1)).

(** [data=pix.tobytes("png"); img=QImage.fromData(data,"PNG").copy()] *)
Definition png_image (env : Decoder) (pix : Pixmap) : option QImage :=
  match tobytes_png env pix with
  | None => None
  | Some data => if fromData_raises env data then None else Some (FromData data)
  end.

(** The format chosen for [pix.n]; [None] is the [else] branch. *)
Definition format_of (n : Z) : option Format :=
  if n =? 1 then Some Format_Grayscale8
  else if n =? 3 then Some Format_RGB888
  else if n =? 4 then Some Format_RGBA8888
  else None.

(** The [try] block of [render_page] up to the image it is about to
    store; [None] when one of its calls raises. *)
Definition rasterise (env : Decoder) (dpi0 : Z) (pg : Page) (safe_png : bool)
    : option QImage :=
  let scale := fmin (fmax (PrimFloat.div (float_of_Z dpi0) 72) 0.5) 3 in
  match get_pixmap env pg scale with
  | None => None
  | Some pix0 =>
      let shrunk :=
        if (pix_width pix0 >? 6000) || (pix_height pix0 >? 8000) then
          let shrink := fmax (PrimFloat.div (float_of_Z (pix_width pix0)) 3000)
                             (PrimFloat.div (float_of_Z (pix_height pix0)) 4000) in
          get_pixmap env pg (PrimFloat.div scale shrink)
        else Some pix0 in
      match shrunk with
      | None => None
      | Some pix =>
          if safe_png then png_image env pix
          else
            match format_of (pix_n pix) with
            | None => png_image env pix
            | Some fmt =>
                if fromSamples_raises env pix then None
                else Some (FromSamples (pix_samples pix) (pix_width pix)
                             (pix_height pix) (pix_stride pix) fmt)
            end
      end
  end.

(** [render_page(self, pno, safe_png)]: what the call leaves behind and
    the model afterwards. [self.doc[pno]] stands before the [try], so an
    exception of the decoder while it loads the page leaves the method;
    the [put] that stores the image stands inside the [try]. *)
Definition render_page (env : Decoder) (m : t) (pno : Z) (safe_png : bool)
    : outcome (option QImage) * t :=
  match doc m with
  | None => (Returned None, m)
  | Some pages =>
      if (pno <? 0) || (pno >=? Z.of_nat (page_count m)) then (Returned None, m)
      else
        let key := _page_key m pno safe_png in
        let '(cached, c1) := LRUCache.get (page_pix_cache m) key in
        let m1 := with_cache m c1 in
        match cached with
        | Some img => (Returned (Some img), m1)
        | None =>
            match (if load_page_raises env pno then None else index pages pno) with
            | None => (Raised, m1)
            | Some pg =>
                match rasterise env (dpi m) pg safe_png with
                | Some img =>
                    match LRUCache.put c1 key img with
                    | (Returned _, c2) => (Returned (Some img), with_cache m c2)
                    | (Raised, c2) =>
                        (Returned (Some (failure_tile pno)), with_cache m c2)
                    end
                | None => (Returned (Some (failure_tile pno)), m1)
                end
            end
        end
  end.
End DocModel.

(** ** [class PdfView]: the page list and the two ways of rendering it *)

Module PdfView.

(** A [PageItem], as far as rendering reads and writes it. *)
Record PageItem := { original_img : option QImage }.

(** [self._all_timer] is kept as its two attributes. *)
Record t := mk {
  model : option DocModel.t;
  safe_png : bool;
  render_delay_ms : Z;
  dpi : Z;
  page_items : list PageItem;
  timer_active : bool;
  timer_interval : Z;
  _all_idx : nat;
  _all_active : bool }.

(** [PdfView()] *)
Definition init : t :=
  mk None true 100 110 [] false 0 0 false.

Definition with_model (v : t) (m : option DocModel.t) : t :=
  mk m (safe_png v) (render_delay_ms v) (dpi v) (page_items v)
     (timer_active v) (timer_interval v) (_all_idx v) (_all_active v).

Definition with_items (v : t) (items : list PageItem) : t :=
  mk (model v) (safe_png v) (render_delay_ms v) (dpi v) items
     (timer_active v) (timer_interval v) (_all_idx v) (_all_active v).

Definition with_scheduler (v : t) (active : bool) (interval : Z) (idx : nat)
    (all_active : bool) : t :=
  mk (model v) (safe_png v) (render_delay_ms v) (dpi v) (page_items v)
     active interval idx all_active.

(** [self._all_timer.stop(); self._all_active = False] *)
Definition stop (v : t) : t :=
  with_scheduler v false (timer_interval v) (_all_idx v) false.

(** [set_model(self, model)] *)
Definition set_model (m : option DocModel.t) (v : t) : t :=
  let v1 := if timer_active v then stop v else v in
  let v2 := with_model (with_items v1 []) m in
  match m with
  | None => v2
  | Some dm =>
      with_items v2 (map (fun _ => {| original_img := None |})
                         (seq 0 (DocModel.page_count dm)))
  end.

(** [render_single_page_raw(self, pno)]: an exception of [render_page]
    becomes [None]; the model keeps what the call did to its cache. *)
Definition render_single_page_raw (env : Decoder) (v : t) (pno : Z)
    : option QImage * t :=
  match model v with
  | None => (None, v)
  | Some m =>
      match DocModel.render_page env m pno (safe_png v) with
      | (Returned r, m') => (r, with_model v (Some m'))
      | (Raised, m') => (None, with_model v (Some m'))
      end
  end.

(** [item.original_img = img] for the item at position [p]. *)
Definition set_img (p : nat) (img : option QImage) (v : t) : t :=
  with_items v (<[p := {| original_img := img |}]> (page_items v)).

(** [render_all_pages(self)] *)
Definition render_all_pages (v : t) : t :=
  match model v with
  | None => v
  | Some _ =>
      if _all_active v then v
      else with_scheduler v true (render_delay_ms v) 0 true
  end.

(** What one tick did with the page under the cursor: passed it because
    it has an image, or called the renderer for it. *)
Inductive event := Passed (pno : nat) | Rendered (pno : nat).

Definition event_page (e : event) : nat :=
  match e with Passed p => p | Rendered p => p end.

(** [_render_all_step(self)], with the events of this tick. *)
Definition _render_all_step (env : Decoder) (v : t) : outcome (list event) * t :=
  let at_end :=
    match model v with
    | None => true
    | Some m => (DocModel.page_count m <=? _all_idx v)%nat
    end in
  if at_end then (Returned [], stop v)
  else
    let pno := _all_idx v in
    match page_items v !! pno with
    | None => (Raised, v)
    | Some item =>
        match original_img item with
        | None =>
            let '(img, v1) := render_single_page_raw env v (Z.of_nat pno) in
            let v2 := match img with
                      | Some _ => set_img pno img v1
                      | None => v1
                      end in
            (Returned [Rendered pno],
             with_scheduler v2 (timer_active v2) (timer_interval v2)
                            (S (_all_idx v2)) (_all_active v2))
        | Some _ =>
            (Returned [Passed pno],
             with_scheduler v (timer_active v) (timer_interval v)
                            (S (_all_idx v)) (_all_active v))
        end
    end.

(** A timer tick: the timer calls the step only while it is active. *)
Definition tick (env : Decoder) (v : t) : outcome (list event) * t :=
  if timer_active v then _render_all_step env v else (Returned [], v).

(** One tick per decoder state in [envs]; the events in order. A tick
    that raises ends the run. *)
Fixpoint ticks (envs : list Decoder) (v : t) : outcome (list event) * t :=
  match envs with
  | [] => (Returned [], v)
  | env :: r =>
      match tick env v with
      | (Returned es, v1) =>
          match ticks r v1 with
          | (Returned es', v2) => (Returned (es ++ es'), v2)
          | (Raised, v2) => (Raised, v2)
          end
      | (Raised, v1) => (Raised, v1)
      end
  end.

(** The widgets [_visible_range] is about. [self.setWidget(self.container)]
    in [PdfView.__init__] makes the container a child of the scroll area's
    viewport; the viewport is a child of the scroll area, which sits in
    the widgets of the window ([W_outer 0] is the scroll area's parent,
    [W_outer 1] that one's, and so on). *)
Inductive Widget := W_container | W_viewport | W_scroll_area | W_outer (n : nat).

(** [a is b] for two widgets. *)
Definition same_widget (a b : Widget) : bool :=
  match a, b with
  | W_container, W_container => true
  | W_viewport, W_viewport => true
  | W_scroll_area, W_scroll_area => true
  | W_outer n, W_outer k => Nat.eqb n k
  | _, _ => false
  end.

(** What Qt reports about the scroll area when [_visible_range] asks:
    the top and bottom of [viewport().rect()], the position of the
    viewport in the scroll area and of the scroll area in its parent, the
    positions of the widgets further up, the spacing of the layout, and
    the height of each page item. *)
Record Geometry := {
  rect_top : Z;
  rect_bottom : Z;
  viewport_y : Z;
  scroll_area_y : Z;
  outer_ys : list Z;
  spacing : Z;
  item_height : nat -> Z }.

(** The viewport and the widgets above it, each with its position in
    its parent. *)
Definition upwards (g : Geometry) : list (Widget * Z) :=
  (W_viewport, viewport_y g) :: (W_scroll_area, scroll_area_y g)
  :: imap (fun n y => (W_outer n, y)) (outer_ys g).

(** [w.mapTo(parent, pos).y()] for a widget [w] whose chain of parents,
    itself first, is [chain]: the position is translated from each widget
    to its parent until [parent] is reached. Qt requires [parent] to be
    among the parents of [w]; when the chain ends before it is met the
    call does not return (the process ends inside Qt), which is [None]. *)
Fixpoint mapTo (chain : list (Widget * Z)) (parent : Widget) (y : Z) : option Z :=
  match chain with
  | [] => None
  | (w, wy) :: up =>
      if same_widget w parent then Some y else mapTo up parent (y + wy)
  end.

(** The [for i,item in enumerate(self.page_items)] loop of
    [_visible_range], from item [i] on. *)
Fixpoint visible_scan (g : Geometry) (top bot : Z) (i : nat)
    (items : list PageItem) (y : Z) (rng : list nat) : list nat :=
  match items with
  | [] => rng
  | _ :: r =>
      let h := if item_height g i =? 0 then 120 else item_height g i in
      let rng1 :=
        if (y + h >=? top - 300) && (y <=? bot + 300)
        then rng ++ [i] else rng in
      visible_scan g top bot (S i) r (y + h + spacing g) rng1
  end.

(** [min(rng)] and [max(rng)] for a list that is not empty. *)
Definition list_min (x : nat) (l : list nat) : nat := foldl Nat.min x l.
Definition list_max (x : nat) (l : list nat) : nat := foldl Nat.max x l.

(** [_visible_range(self)]; [None] when a [mapTo] call does not return. *)
Definition _visible_range (g : Geometry) (v : t) : option (Z * Z) :=
  match page_items v with
  | [] => Some (0, -1)
  | _ =>
      match mapTo (upwards g) W_container (rect_top g) with
      | None => None
      | Some top =>
          match mapTo (upwards g) W_container (rect_bottom g) with
          | None => None
          | Some bot =>
              match visible_scan g top bot 0 (page_items v) 0 [] with
              | [] => Some (0, 0)
              | x :: l => Some (Z.of_nat (list_min x l), Z.of_nat (list_max x l))
              end
          end
      end
  end.

(** [range(a, b)] *)
Definition range (a b : Z) : list Z := seqZ a (b - a).

(** The [for pno in range(start, end+1)] loop of [render_visible_lite],
    with the pages it called the renderer for. *)
Fixpoint visible_loop (env : Decoder) (count : Z) (pnos : list Z) (done : Z)
    (v : t) : outcome (list Z) * t :=
  match pnos with
  | [] => (Returned [], v)
  | pno :: r =>
      match position (page_items v) pno with
      | None => (Raised, v)
      | Some p =>
          match page_items v !! p with
          | None => (Raised, v)
          | Some item =>
              match original_img item with
              | Some _ => visible_loop env count r done v
              | None =>
                  let '(img, v1) := render_single_page_raw env v pno in
                  let v2 := set_img p img v1 in
                  let done1 := done + 1 in
                  if done1 >=? count then (Returned [pno], v2)
                  else
                    match visible_loop env count r done1 v2 with
                    | (Returned log, v3) => (Returned (pno :: log), v3)
                    | (Raised, v3) => (Raised, v3)
                    end
              end
          end
      end
  end.

(** [render_visible_lite(self, count)]; [None] when the call does not
    return because [_visible_range] does not. *)
Definition render_visible_lite (env : Decoder) (g : Geometry) (count : Z)
    (v : t) : option (outcome (list Z) * t) :=
  match model v with
  | None => Some (Returned [], v)
  | Some _ =>
      match _visible_range g v with
      | None => None
      | Some (start, end_) =>
          Some (visible_loop env count (range start (end_ + 1)) 0 v)
      end
  end.

End PdfView.

(** ** The extraction output as the specification words it

    Second definitions, written from the specification's description of
    the two strategies rather than from the loops: what each page
    contributes to the merged text, and which figures it holds. The
    theorems of Part II compare the program with them. *)

Module Contribution.
Import DocModel.

(** Simple strategy: one figure per embedded image, bounding box unknown. *)
Definition simple_figures (pno : nat) (pg : Page) : list Figure :=
  map (fun x => {| page := pno; xref := XInt x; bbox := None |})
      (default [] (get_images pg)).

(** The bounding box a block reports; all zero when it reports none. *)
Definition reported_box (blk : Block) : BBox :=
  match blk_bbox blk with
  | Some b => b
  | None => (0%float, 0%float, 0%float, 0%float)
  end.

(** Structured strategy: an image block with a usable image reference is
    a figure with its reported bounding box. *)
Definition block_figure (pno : nat) (blk : Block) : option Figure :=
  if default 0 (blk_type blk) =? 1 then
    match py_or (blk_xref blk) (blk_image blk) with
    | Some xv =>
        if truthy (Some xv)
        then Some {| page := pno; xref := xv; bbox := Some (reported_box blk) |}
        else None
    | None => None
    end
  else None.

Definition structured_figures (pno : nat) (pg : Page) : list Figure :=
  omap (block_figure pno) (default [] (rawdict_blocks pg)).

Definition page_figures (md : Mode) (pno : nat) (pg : Page) : list Figure :=
  match md with
  | simple => simple_figures pno pg
  | structured => structured_figures pno pg
  end.

(** The figures of the pages [pgs], numbered from page [pno], in the
    order they are met. *)
Fixpoint figures_from (md : Mode) (pno : nat) (pgs : list Page) : list Figure :=
  match pgs with
  | [] => []
  | pg :: r => page_figures md pno pg ++ figures_from md (S pno) r
  end.

Definition doc_figures (md : Mode) (pages : list Page) : list Figure :=
  figures_from md 0 pages.

(** Plain text of a page followed by a blank-line separator, if any. *)
Definition text_part (pg : Page) : pystr :=
  let txt := strip (or_empty (get_text pg)) in
  if nonempty txt then txt ++ nl2 else [].

(** The markers of figures [fig0 + 1], [fig0 + 2], ... of page [pno]. *)
Fixpoint marks_from {A} (fig0 pno : nat) (imgs : list A) : list pystr :=
  match imgs with
  | [] => []
  | _ :: r => figure_mark (S fig0) pno :: marks_from (S fig0) pno r
  end.

(** Simple strategy: the text part, then the markers joined by single
    spaces and closed by one blank-line separator. *)
Definition simple_contribution (fig0 pno : nat) (pg : Page) : pystr :=
  let imgs := default [] (get_images pg) in
  text_part pg ++
  (if nonempty imgs then join (lit " ") (marks_from fig0 pno imgs) ++ nl2 else []).

(** A line that is not blank, followed by a single separator. *)
Definition line_part (ln : Line) : pystr :=
  if nonempty (strip (line_text ln)) then line_text ln ++ nl else [].

Definition is_blank (ln : Line) : bool := negb (nonempty (strip (line_text ln))).

(** A text block: its lines, then one extra separator. *)
Definition text_block_part (blk : Block) : pystr :=
  concat (map line_part (default [] (blk_lines blk))) ++ nl.

(** A text block lying wholly in the top or bottom margin, when
    header/footer stripping is on. *)
Definition dropped (hdr : bool) (page_h : float) (blk : Block) : bool :=
  hdr && (default 0 (blk_type blk) =? 0) && in_margin page_h blk.

(** The blocks of a page in order, figures numbered from [fig0 + 1]. *)
Fixpoint blocks_part (hdr : bool) (page_h : float) (pno : nat)
    (blks : list Block) (fig0 : nat) : pystr :=
  match blks with
  | [] => []
  | blk :: r =>
      if dropped hdr page_h blk then blocks_part hdr page_h pno r fig0
      else if default 0 (blk_type blk) =? 0
      then text_block_part blk ++ blocks_part hdr page_h pno r fig0
      else
        match block_figure pno blk with
        | Some _ => figure_mark (S fig0) pno ++ nl2
                    ++ blocks_part hdr page_h pno r (S fig0)
        | None => blocks_part hdr page_h pno r fig0
        end
  end.

(** Whether the retained text blocks produced a text line. *)
Definition blocks_wrote (hdr : bool) (page_h : float) (blks : list Block) : bool :=
  existsb (fun blk =>
             negb (dropped hdr page_h blk) && (default 0 (blk_type blk) =? 0)
             && existsb (fun ln => negb (is_blank ln)) (default [] (blk_lines blk)))
          blks.

(** Structured strategy: the blocks, or the page's plain text when no
    text line was produced. *)
Definition structured_contribution (hdr : bool) (fig0 pno : nat) (pg : Page) : pystr :=
  let blks := default [] (rawdict_blocks pg) in
  blocks_part hdr (rect_height pg) pno blks fig0 ++
  (if blocks_wrote hdr (rect_height pg) blks then [] else text_part pg).

Definition contribution (md : Mode) (hdr : bool) (fig0 pno : nat) (pg : Page) : pystr :=
  match md with
  | simple => simple_contribution fig0 pno pg
  | structured => structured_contribution hdr fig0 pno pg
  end.

(** The contributions of the pages [pgs], page numbers from [pno], figure
    numbers from [fig0 + 1]. *)
Fixpoint contributions_from (md : Mode) (hdr : bool) (pno fig0 : nat)
    (pgs : list Page) : list pystr :=
  match pgs with
  | [] => []
  | pg :: r =>
      contribution md hdr fig0 pno pg ::
      contributions_from md hdr (S pno) (fig0 + length (page_figures md pno pg))%nat r
  end.

Definition contributions (md : Mode) (hdr : bool) (pages : list Page) : list pystr :=
  contributions_from md hdr 0 0 pages.

(** Consecutive ranges of the given lengths, the first starting at [start]. *)
Fixpoint offsets_from (start : nat) (cs : list pystr) : list (nat * nat) :=
  match cs with
  | [] => []
  | c :: r => (start, start + length c)%nat :: offsets_from (start + length c)%nat r
  end.

(** Figures [fs] entered under the ids [fid + 1], [fid + 2], ... *)
Fixpoint register_all (fid : nat) (fs : list Figure) (g : gmap nat Figure)
    : gmap nat Figure :=
  match fs with
  | [] => g
  | f :: r => register_all (S fid) r (<[S fid := f]> g)
  end.

(** What a stretch of a build loop did: it appended the text [c] and
    registered the figures [fs], and left the offsets alone. *)
Definition effect (st st' : build_st) (c : pystr) (fs : list Figure) : Prop :=
  buffer st' = buffer st ++ c /\
  char_count st' = (char_count st + length c)%nat /\
  fig_id st' = (fig_id st + length fs)%nat /\
  figs st' = register_all (fig_id st) fs (figs st) /\
  offs st' = offs st.

(** The body of the page loop for a mode. *)
Definition body_of (md : Mode) (hdr : bool) : nat -> Page -> build_st -> build_st :=
  match md with
  | simple => simple_page
  | structured => structured_page hdr
  end.

(** The property of claim C1 for a text, an offsets array and the pages'
    contributions: every page's range cuts its contribution out of the text. *)
Definition slices_reconstruct (text : pystr) (offsets : list (nat * nat))
    (cs : list pystr) : Prop :=
  forall i c, cs !! i = Some c ->
    exists s e, offsets !! i = Some (s, e) /\ slice text s e = c.

End Contribution.

(** ** The render-all pass as the specification words it *)

Module Pass.
Import PdfView.

(** The scheduler is Idle: timer stopped, active flag cleared. *)
Definition idle (v : t) : bool := negb (timer_active v) && negb (_all_active v).

(** The scheduler is Running. *)
Definition running (v : t) : bool := timer_active v && _all_active v.

(** What a pass does with page [i]: render it when it has no image yet. *)
Definition page_event (i : nat) (item : PageItem) : event :=
  match original_img item with
  | None => Rendered i
  | Some _ => Passed i
  end.

(** One event per page, the pages numbered from [a]. *)
Fixpoint events_from (a : nat) (items : list PageItem) : list event :=
  match items with
  | [] => []
  | item :: r => page_event a item :: events_from (S a) r
  end.

End Pass.

(** ** Invariants of a model *)

Module Invariant.
Import DocModel.

(** The placeholder of the [except] branch is the only [Tile] the
    program builds. *)
Definition is_tile (img : QImage) : bool :=
  match img with
  | Tile _ _ _ _ _ _ _ _ => true
  | _ => false
  end.

(** [open] leaves [page_count] equal to [len(self.doc)]. *)
Definition doc_ok (m : t) : Prop :=
  forall pages, doc m = Some pages -> page_count m = length pages.

(** The cache of a model: built with [max_items=20], keys unique, within
    its capacity, and holding no placeholder. *)
Definition cache_ok (c : LRUCache.t Key QImage) : Prop :=
  LRUCache.max c = 20 /\ LRUCache.wf c /\
  (length (LRUCache.d c) <= 20)%nat /\
  forall k img, (k, img) ∈ LRUCache.d c -> is_tile img = false.

Definition model_ok (m : t) : Prop := doc_ok m /\ cache_ok (page_pix_cache m).

End Invariant.

(** ** Sample documents and views *)

Module Sample.

(** A page whose text is ["a"], without images or blocks. *)
Definition page_a : Page :=
  {| get_text := Some (lit "a"); get_images := Some [];
     rawdict_blocks := None; rect_height := 800 |}.

(** A page with text, two embedded images, a text block and an image block. *)
Definition page_b : Page :=
  {| get_text := Some (lit " b c ");
     get_images := Some [7; 8];
     rawdict_blocks :=
       Some [ {| blk_type := Some 0; blk_bbox := Some (0, 100, 50, 120)%float;
                 blk_lines := Some [ {| ln_spans := Some [ {| sp_text := Some (lit "hi") |} ] |} ];
                 blk_xref := None; blk_image := None |};
              {| blk_type := Some 1; blk_bbox := Some (1, 2, 3, 4)%float;
                 blk_lines := None; blk_xref := Some (XInt 5); blk_image := None |} ];
     rect_height := 800 |}.

(** A decoder that loads a page and then raises on every call of the
    pipeline. *)
Definition failing : Decoder :=
  {| load_page_raises := fun _ => false;
     get_pixmap := fun _ _ => None;
     tobytes_png := fun _ => None;
     fromData_raises := fun _ => true;
     fromSamples_raises := fun _ => true |}.

(** A decoder that answers every call: a 2 by 2 grey pixmap. *)
Definition working : Decoder :=
  {| load_page_raises := fun _ => false;
     get_pixmap := fun _ _ =>
       Some {| pix_width := 2; pix_height := 2; pix_n := 1; pix_stride := 2;
               pix_samples := [0; 0; 0; 0]%N |};
     tobytes_png := fun pix => Some (pix_samples pix);
     fromData_raises := fun _ => false;
     fromSamples_raises := fun _ => false |}.

(** A decoder that raises when a page is loaded, and would answer every
    other call. *)
Definition unloadable : Decoder :=
  {| load_page_raises := fun _ => true;
     get_pixmap := get_pixmap working;
     tobytes_png := tobytes_png working;
     fromData_raises := fun _ => false;
     fromSamples_raises := fun _ => false |}.

(** The model of a document read in the given mode. *)
Definition opened (md : DocModel.Mode) (pages : list Page) : DocModel.t :=
  match DocModel.open pages (DocModel.init 110 md false) with
  | Returned m => m
  | Raised => DocModel.init 110 md false
  end.

(** The view after [set_model] with a freshly opened model. *)
Definition view_of (pages : list Page) : PdfView.t :=
  PdfView.set_model (Some (opened DocModel.simple pages)) PdfView.init.

(** A scroll area at the top left of a window, 1000 high, with page
    items 100 high. *)
Definition geometry : PdfView.Geometry :=
  {| PdfView.rect_top := 0; PdfView.rect_bottom := 999;
     PdfView.viewport_y := 0; PdfView.scroll_area_y := 0;
     PdfView.outer_ys := [0; 0];
     PdfView.spacing := 12; PdfView.item_height := fun _ => 100 |}.

End Sample.

(** ** Further methods of [PdfView], [PageItem] and [MainWindow] *)

Module PdfViewOps.
Import PdfView.

(** [set_safe_png(self, on)] *)
Definition set_safe_png (on : bool) (v : t) : t :=
  mk (model v) on (render_delay_ms v) (dpi v) (page_items v)
     (timer_active v) (timer_interval v) (_all_idx v) (_all_active v).

(** [set_render_delay(self, delay_ms)]: the running timer takes the new
    interval at once. *)
Definition set_render_delay (delay_ms : Z) (v : t) : t :=
  let d := Z.max 0 (Z.min 1000 delay_ms) in
  mk (model v) (safe_png v) d (dpi v) (page_items v)
     (timer_active v) (if timer_active v then d else timer_interval v)
     (_all_idx v) (_all_active v).

(** [set_dpi(self, dpi)] *)
Definition set_dpi (d : Z) (v : t) : t :=
  mk (model v) (safe_png v) (render_delay_ms v) (Z.max 72 (Z.min 220 d))
     (page_items v) (timer_active v) (timer_interval v) (_all_idx v)
     (_all_active v).

(** [jump_to_page(self, pno)]: the value handed to the vertical scroll
    bar, [None] when the method returns without scrolling. [item_y p] is
    [self.page_items[p].pos().y()]. *)
Definition jump_to_page (item_y : nat -> Z) (v : t) (pno : Z) : option Z :=
  if negb (nonempty (page_items v)) || (pno <? 0)
     || (pno >=? Z.of_nat (length (page_items v)))
  then None
  else match position (page_items v) pno with
       | Some p => Some (item_y p)
       | None => None
       end.

End PdfViewOps.

Module PageItem.
Import PdfView.

(** [PageItem._clear(self)] for the item at position [p] of its view. *)
Definition _clear (p : nat) (v : t) : t := set_img p None v.

(** [PageItem._render_once(self)] for the item at position [p], whose
    [pno] is [p]. *)
Definition _render_once (env : Decoder) (p : nat) (v : t) : t :=
  let '(img, v1) := render_single_page_raw env v (Z.of_nat p) in
  set_img p img v1.

End PageItem.

Module MainWindow.

(** [on_anchor_clicked(self, fig_id)] with [self.model] and
    [self.pdf_view]: the scroll value it asks for, if any. *)
Definition on_anchor_clicked (item_y : nat -> Z) (mw_model : option DocModel.t)
    (v : PdfView.t) (fig_id : Z) : option Z :=
  match mw_model with
  | None => None
  | Some m =>
      let info := if fig_id <? 0 then None
                  else DocModel.figures m !! Z.to_nat fig_id in
      match info with
      | Some f => PdfViewOps.jump_to_page item_y v (Z.of_nat (DocModel.page f))
      | None => None
      end
  end.

End MainWindow.

(** ** Two notions about texts *)

Module Text.

(** The text [s] is empty or ends with a newline. *)
Definition ends_nl (s : pystr) : Prop := s = [] \/ exists s0, s = s0 ++ nl.

(** The text [sub] stands in [s] at position [pos]. *)
Definition occurs_at (sub s : pystr) (pos : nat) : Prop :=
  (pos + length sub <= length s)%nat /\ slice s pos (pos + length sub) = sub.

End Text.

(** ** Runs of calls *)

Module Runs.
Import DocModel.

(** The scale of the first [get_pixmap] request of [render_page]. *)
Definition first_scale (dpi0 : Z) : float :=
  fmin (fmax (PrimFloat.div (float_of_Z dpi0) 72) 0.5) 3.

(** [render_page] called once per entry of [calls], each with the decoder
    state it meets; the results in order. A call that raises ends the run. *)
Fixpoint render_calls (calls : list (Decoder * Z * bool)) (m : t)
    : outcome (list (option QImage)) * t :=
  match calls with
  | [] => (Returned [], m)
  | (env, pno, safe) :: r =>
      match render_page env m pno safe with
      | (Returned x, m1) =>
          match render_calls r m1 with
          | (Returned xs, m2) => (Returned (x :: xs), m2)
          | (Raised, m2) => (Raised, m2)
          end
      | (Raised, m1) => (Raised, m1)
      end
  end.

(** What can happen to a view: the methods the window calls on it, a
    timer tick, and [close] called on its model through the window's
    reference to the same object. ([render_visible_lite] is not among
    them: a call of it that returns leaves the view as it is.) *)
Inductive action :=
| SetModel (m : option DocModel.t)
| CloseModel
| RenderAll
| Tick (env : Decoder)
| SetDelay (delay_ms : Z)
| SetSafe (on : bool)
| SetDpi (d : Z)
| ItemClear (p : nat)
| ItemRender (env : Decoder) (p : nat).

Definition act (a : action) (v : PdfView.t) : PdfView.t :=
  match a with
  | SetModel m => PdfView.set_model m v
  | CloseModel =>
      match PdfView.model v with
      | Some m => PdfView.with_model v (Some (close m))
      | None => v
      end
  | RenderAll => PdfView.render_all_pages v
  | Tick env => (PdfView.tick env v).2
  | SetDelay d => PdfViewOps.set_render_delay d v
  | SetSafe on => PdfViewOps.set_safe_png on v
  | SetDpi d => PdfViewOps.set_dpi d v
  | ItemClear p => PageItem._clear p v
  | ItemRender env p => PageItem._render_once env p v
  end.

(** The view after a sequence of actions on a new [PdfView()]. *)
Definition after (acts : list action) : PdfView.t :=
  foldl (fun v a => act a v) PdfView.init acts.

(** What the view keeps true: timer and active flag agree, there is one
    page item per page of the model, and the delay is within its range. *)
Definition view_ok (v : PdfView.t) : Prop :=
  PdfView.timer_active v = PdfView._all_active v /\
  (forall m, PdfView.model v = Some m ->
             length (PdfView.page_items v) = page_count m) /\
  0 <= PdfView.render_delay_ms v <= 1000.

(** [v'] has its page items, scheduler state and delay in the shape [v]
    has them, and a model only if [v] has one with as many pages. *)
Definition same_shape (v v' : PdfView.t) : Prop :=
  length (PdfView.page_items v') = length (PdfView.page_items v) /\
  PdfView.timer_active v' = PdfView.timer_active v /\
  PdfView._all_active v' = PdfView._all_active v /\
  PdfView._all_idx v' = PdfView._all_idx v /\
  PdfView.render_delay_ms v' = PdfView.render_delay_ms v /\
  (forall m1, PdfView.model v' = Some m1 ->
     exists m, PdfView.model v = Some m /\ page_count m1 = page_count m).

End Runs.

(** ** The rasterisation pipeline as the specification words it

    Second definitions, written from the specification's description of
    the renderer: which answers of the decoder make the pipeline fail,
    and which image it produces otherwise. *)

Module Pipeline.
Section Calls.
Variables (env : Decoder) (dpi0 : Z) (pg : Page) (safe : bool).

(** The raster exceeds the safety bound: wider than 6000 or higher than
    8000 pixels. *)
Definition oversized (pix : Pixmap) : bool :=
  (6000 <? pix_width pix) || (8000 <? pix_height pix).

(** The scale of the second request: the first scale divided by the
    larger overflow ratio against 3000 by 4000. *)
Definition reduced_scale (pix : Pixmap) : float :=
  PrimFloat.div (Runs.first_scale dpi0)
    (fmax (PrimFloat.div (float_of_Z (pix_width pix)) 3000)
          (PrimFloat.div (float_of_Z (pix_height pix)) 4000)).

(** The raster the image is made from: that of the first request, or
    that of the second request when the first is oversized. *)
Inductive raster : Pixmap -> Prop :=
| raster_first pix :
    get_pixmap env pg (Runs.first_scale dpi0) = Some pix ->
    oversized pix = false -> raster pix
| raster_second pix0 pix :
    get_pixmap env pg (Runs.first_scale dpi0) = Some pix0 ->
    oversized pix0 = true ->
    get_pixmap env pg (reduced_scale pix0) = Some pix -> raster pix.

(** The channel counts the fast path maps to a pixel format. *)
Inductive channels : Z -> Format -> Prop :=
| channels_1 : channels 1 Format_Grayscale8
| channels_3 : channels 3 Format_RGB888
| channels_4 : channels 4 Format_RGBA8888.

(** The raster goes through the encode/decode round trip: on the safe
    path, and on the fast path for any other channel count. *)
Definition round_trip (pix : Pixmap) : Prop :=
  safe = true \/ forall fmt, ~ channels (pix_n pix) fmt.

(** A call of the pipeline raises. *)
Inductive fails : Prop :=
| request_raises :
    get_pixmap env pg (Runs.first_scale dpi0) = None -> fails
| second_request_raises pix0 :
    get_pixmap env pg (Runs.first_scale dpi0) = Some pix0 ->
    oversized pix0 = true ->
    get_pixmap env pg (reduced_scale pix0) = None -> fails
| encode_raises pix :
    raster pix -> round_trip pix -> tobytes_png env pix = None -> fails
| decode_raises pix data :
    raster pix -> round_trip pix -> tobytes_png env pix = Some data ->
    fromData_raises env data = true -> fails
| raw_buffer_raises pix fmt :
    raster pix -> safe = false -> channels (pix_n pix) fmt ->
    fromSamples_raises env pix = true -> fails.

(** No call raises, and this is the image. *)
Inductive produces : QImage -> Prop :=
| produces_decoded pix data :
    raster pix -> round_trip pix -> tobytes_png env pix = Some data ->
    fromData_raises env data = false -> produces (FromData data)
| produces_raw pix fmt :
    raster pix -> safe = false -> channels (pix_n pix) fmt ->
    fromSamples_raises env pix = false ->
    produces (FromSamples (pix_samples pix) (pix_width pix) (pix_height pix)
                          (pix_stride pix) fmt).

End Calls.

(** The placeholder: a small image of fixed size with a neutral fill and
    a short text that names the failing page by its 1-based number. *)
Definition placeholder (pno : Z) : QImage :=
  Tile 320 200 Format_RGB888 (40, 40, 40) (255, 200, 0) 10 100
       (lit "Render failed p" ++ str_of_Z (pno + 1)).

End Pipeline.

(** * Part II: properties *)

(** Closed decidable goals are settled by evaluation. *)
Ltac by_compute :=
  simpl; refine (bool_decide_unpack _ _); vm_compute; exact I.

(** ** Suffixes *)

Section LastN.
Context {A : Type}.
Implicit Types l k : list A.
Local Open Scope nat_scope.

Lemma lastn_all n l : length l ≤ n -> lastn n l = l.
Proof.
  intros H. unfold lastn. replace (length l - n) with 0 by lia. apply drop_0.
Qed.

Lemma lastn_length n l : length (lastn n l) = length l `min` n.
Proof. unfold lastn. rewrite length_drop. lia. Qed.

Lemma lastn_app n l k :
  lastn n (l ++ k) = lastn (n - length k) l ++ lastn n k.
Proof.
  unfold lastn. rewrite drop_app, length_app.
  destruct (decide (n ≤ length k)) as [Hle|Hgt].
  - rewrite (drop_ge l) by lia.
    replace (n - length k) with 0 by lia. rewrite Nat.sub_0_r, drop_all.
    simpl. f_equal. lia.
  - f_equal; f_equal; lia.
Qed.

Lemma lastn_app_ge n l k : n ≤ length k -> lastn n (l ++ k) = lastn n k.
Proof.
  intros H. rewrite lastn_app. replace (n - length k) with 0 by lia.
  unfold lastn at 1. rewrite Nat.sub_0_r, drop_all. reflexivity.
Qed.

Lemma lastn_sublist n l : lastn n l `sublist_of` l.
Proof. apply sublist_drop. Qed.
End LastN.

(** ** The cache *)

Module LRUCacheFacts.
Import LRUCache.
Local Open Scope nat_scope.
Section Facts.
Context {K V : Type} `{EqDecision K}.
Implicit Types (l a b : list (K * V)) (k : K) (v : V) (c : LRUCache.t K V).

Lemma od_get_None k l : od_get k l = None <-> k ∉ l.*1.
Proof.
  induction l as [|[k' v'] r IH]; simpl.
  - split; [intros _; apply not_elem_of_nil | done].
  - rewrite not_elem_of_cons. destruct (decide (k = k')); [|tauto].
    split; [done | tauto].
Qed.

Lemma od_get_Some_elem k v l : od_get k l = Some v -> (k, v) ∈ l.
Proof.
  induction l as [|[k' v'] r IH]; simpl; [done|].
  destruct (decide (k = k')) as [->|]; intros Hg.
  - injection Hg as ->. apply list_elem_of_here.
  - apply list_elem_of_further. auto.
Qed.

Lemma od_get_elem k v l : NoDup l.*1 -> (k, v) ∈ l -> od_get k l = Some v.
Proof.
  induction l as [|[k' v'] r IH]; simpl; intros Hnd Hin.
  - by apply elem_of_nil in Hin.
  - apply NoDup_cons in Hnd as [Hk' Hnd].
    apply elem_of_cons in Hin as [Heq|Hin].
    + injection Heq as -> ->. by rewrite decide_True.
    + destruct (decide (k = k')) as [->|]; [|auto].
      exfalso. apply Hk'. apply list_elem_of_fmap. by exists (k', v).
Qed.

Lemma od_pop_notin k l : k ∉ l.*1 -> od_pop k l = l.
Proof.
  induction l as [|[k' v'] r IH]; simpl; [done|].
  rewrite not_elem_of_cons. intros [Hne Hr].
  rewrite decide_False by done. by rewrite IH.
Qed.

Lemma od_setitem_notin k v l : k ∉ l.*1 -> od_setitem k v l = l ++ [(k, v)].
Proof.
  induction l as [|[k' v'] r IH]; simpl; [done|].
  rewrite not_elem_of_cons. intros [Hne Hr].
  rewrite decide_False by done. by rewrite IH.
Qed.

Lemma od_pop_sublist k l : od_pop k l `sublist_of` l.
Proof.
  induction l as [|[k' v'] r IH]; simpl; [done|].
  destruct (decide (k = k')); [by apply sublist_cons | by apply sublist_skip].
Qed.

Lemma od_pop_NoDup k l : NoDup l.*1 -> NoDup (od_pop k l).*1.
Proof.
  intros Hnd. eapply sublist_NoDup; [exact Hnd|].
  apply fmap_sublist, od_pop_sublist.
Qed.

Lemma od_pop_gone k l : NoDup l.*1 -> k ∉ (od_pop k l).*1.
Proof.
  induction l as [|[k' v'] r IH]; simpl; intros Hnd.
  - apply not_elem_of_nil.
  - apply NoDup_cons in Hnd as [Hk' Hnd].
    destruct (decide (k = k')) as [->|]; [done|].
    simpl. rewrite not_elem_of_cons. auto.
Qed.

Lemma od_pop_length k l : length l ≤ S (length (od_pop k l)).
Proof.
  induction l as [|[k' v'] r IH]; simpl; [lia|].
  destruct (decide (k = k')); simpl; lia.
Qed.

Lemma od_pop_length_hit k v l :
  od_get k l = Some v -> S (length (od_pop k l)) = length l.
Proof.
  induction l as [|[k' v'] r IH]; simpl; [done|].
  destruct (decide (k = k')); [done|]. intros Hg. simpl. by rewrite IH.
Qed.

Lemma od_pop_app_l k a b : k ∈ a.*1 -> od_pop k (a ++ b) = od_pop k a ++ b.
Proof.
  induction a as [|[k' v'] r IH]; simpl; intros Hin.
  - by apply elem_of_nil in Hin.
  - destruct (decide (k = k')); [done|].
    apply elem_of_cons in Hin as [?|Hin]; [done|]. by rewrite IH.
Qed.

Lemma od_pop_app_r k a b : k ∉ a.*1 -> od_pop k (a ++ b) = a ++ od_pop k b.
Proof.
  induction a as [|[k' v'] r IH]; simpl; [done|].
  rewrite not_elem_of_cons. intros [Hne Hr].
  rewrite decide_False by done. by rewrite IH.
Qed.

Lemma od_pop_app_notin k a b : k ∉ b.*1 -> od_pop k (a ++ b) = od_pop k a ++ b.
Proof.
  intros Hb. destruct (decide (k ∈ a.*1)) as [Ha|Ha].
  - by apply od_pop_app_l.
  - rewrite od_pop_app_r by done. by rewrite !od_pop_notin.
Qed.

Lemma evict_spec (mx : Z) l :
  (0 <= mx)%Z -> evict mx l = (Returned (), lastn (Z.to_nat mx) l).
Proof.
  intros Hmx. induction l as [|x r IH]; cbn [evict]; rewrite Z.gtb_ltb.
  - destruct (Z.ltb_spec mx (Z.of_nat (@length (K * V) []))) as [E|E];
      simpl in E; [lia | done].
  - destruct (Z.ltb_spec mx (Z.of_nat (length (x :: r)))) as [E|E];
      cbn [length] in E.
    + rewrite IH. unfold lastn. cbn [length].
      replace (S (length r) - Z.to_nat mx) with (S (length r - Z.to_nat mx)) by lia.
      reflexivity.
    + rewrite lastn_all; [done|]. cbn [length]. lia.
Qed.

(** [put] on a well-formed cache: drop the key, append it, keep the
    newest [max] entries. *)
Lemma put_spec c k v :
  (0 <= max c)%Z -> wf c ->
  put c k v =
    (Returned (), mk (max c) (lastn (Z.to_nat (max c)) (od_pop k (d c) ++ [(k, v)]))).
Proof.
  intros Hmx Hwf. unfold put.
  assert (Hd1 : match od_get k (d c) with Some _ => od_pop k (d c) | None => d c end
                = od_pop k (d c)).
  { destruct (od_get k (d c)) eqn:E; [done|].
    apply od_get_None in E. by rewrite od_pop_notin. }
  rewrite Hd1, od_setitem_notin by (by apply od_pop_gone).
  by rewrite evict_spec.
Qed.

Lemma get_hit c k v :
  wf c -> od_get k (d c) = Some v ->
  get c k = (Some v, mk (max c) (od_pop k (d c) ++ [(k, v)])).
Proof.
  intros Hwf Hg. unfold get. rewrite Hg.
  by rewrite od_setitem_notin by (by apply od_pop_gone).
Qed.

Lemma get_miss c k : od_get k (d c) = None -> get c k = (None, c).
Proof. intros Hg. unfold get. by rewrite Hg. Qed.

Lemma keys_snoc_NoDup k v l : NoDup l.*1 -> NoDup (od_pop k l ++ [(k, v)]).*1.
Proof.
  intros Hnd. rewrite fmap_app. apply NoDup_app. split_and!.
  - by apply od_pop_NoDup.
  - intros x Hx Hx'. apply list_elem_of_singleton in Hx'. subst x.
    by apply (od_pop_gone k l).
  - apply NoDup_singleton.
Qed.

Lemma put_wf c k v : (0 <= max c)%Z -> wf c -> wf (put c k v).2.
Proof.
  intros Hmx Hwf. rewrite put_spec by done. unfold wf. simpl.
  eapply sublist_NoDup; [|apply fmap_sublist, lastn_sublist].
  by apply keys_snoc_NoDup.
Qed.

Lemma put_max c k v : max (put c k v).2 = max c.
Proof. unfold put. by destruct (evict _ _). Qed.

Lemma put_length c k v :
  (0 <= max c)%Z -> wf c -> (Z.of_nat (length (d (put c k v).2)) <= max c)%Z.
Proof.
  intros Hmx Hwf. rewrite put_spec by done. simpl. rewrite lastn_length. lia.
Qed.

Lemma get_wf c k : wf c -> wf (get c k).2.
Proof.
  intros Hwf. destruct (od_get k (d c)) as [v|] eqn:E.
  - rewrite (get_hit _ _ v) by done. by apply keys_snoc_NoDup.
  - by rewrite get_miss.
Qed.

Lemma get_max c k : max (get c k).2 = max c.
Proof. unfold get. by destruct (od_get _ _). Qed.

Lemma get_length c k : wf c -> length (d (get c k).2) = length (d c).
Proof.
  intros Hwf. destruct (od_get k (d c)) as [v|] eqn:E.
  - rewrite (get_hit _ _ v) by done. simpl. rewrite length_app. simpl.
    pose proof (od_pop_length k (d c)).
    assert (length (od_pop k (d c)) < length (d c)); [|lia].
    apply od_get_Some_elem in E. clear -E.
    induction (d c) as [|[k' v'] r IH]; simpl.
    + by apply elem_of_nil in E.
    + destruct (decide (k = k')); [lia|].
      apply elem_of_cons in E as [E|E]; [congruence|]. simpl.
      specialize (IH E). lia.
  - by rewrite get_miss.
Qed.

(** Any run of requests on a well-formed cache within its capacity goes
    through and stays within the capacity. *)
Lemma run_bounded ops c :
  (0 <= max c)%Z -> wf c -> (Z.of_nat (length (d c)) <= max c)%Z ->
  exists c', run ops c = (Returned (), c') /\ max c' = max c /\ wf c' /\
             (Z.of_nat (length (d c')) <= max c)%Z.
Proof.
  revert c. induction ops as [|o r IH]; intros c Hmx Hwf Hlen.
  - by exists c.
  - cbn [run]. destruct o as [k|k v]; cbn [step].
    + destruct (IH (get c k).2) as (c' & Hr & Hm & Hw & Hl).
      * by rewrite get_max.
      * by apply get_wf.
      * rewrite get_max, get_length by done. done.
      * exists c'. rewrite get_max in Hm, Hl. done.
    + destruct (IH (put c k v).2) as (c' & Hr & Hm & Hw & Hl).
      * by rewrite put_max.
      * by apply put_wf.
      * rewrite put_max. by apply put_length.
      * rewrite put_max in Hm, Hl. rewrite put_spec in Hr |- * by done.
        exists c'. done.
Qed.

Lemma lastn_pop_snoc n k x l :
  NoDup l.*1 ->
  lastn n (od_pop k (lastn n l) ++ [x]) = lastn n (od_pop k l ++ [x]).
Proof.
  intros Hnd. destruct (decide (length l ≤ n)) as [Hle|Hgt].
  { by rewrite (lastn_all n l). }
  assert (Hsplit : exists a b, l = a ++ b /\ lastn n l = b /\ length b = n).
  { exists (take (length l - n) l), (drop (length l - n) l).
    rewrite take_drop, length_drop. split_and!; [done..|lia]. }
  destruct Hsplit as (a & b & -> & -> & Hb).
  rewrite fmap_app in Hnd. apply NoDup_app in Hnd as (_ & Hdisj & _).
  destruct (decide (k ∈ a.*1)) as [Ha|Ha].
  - rewrite (od_pop_app_l k a b) by done.
    rewrite (od_pop_notin k b) by (by apply Hdisj).
    rewrite <- (assoc_L (++)).
    rewrite (lastn_app_ge n (od_pop k a) (b ++ [x])); [done|].
    rewrite length_app. simpl. lia.
  - rewrite (od_pop_app_r k a b) by done. rewrite <- (assoc_L (++)).
    rewrite (lastn_app_ge n a (od_pop k b ++ [x])); [done|].
    rewrite length_app. simpl. pose proof (od_pop_length k b). lia.
Qed.

Lemma pop_all_sublist ks l : pop_all ks l `sublist_of` l.
Proof.
  revert l. induction ks as [|k ks IH]; intros l; simpl; [done|].
  etrans; [apply IH | apply od_pop_sublist].
Qed.

Lemma pop_all_NoDup ks l : NoDup l.*1 -> NoDup (pop_all ks l).*1.
Proof.
  intros Hnd. eapply sublist_NoDup; [exact Hnd|].
  apply fmap_sublist, pop_all_sublist.
Qed.

Lemma pop_all_gone ks l k : NoDup l.*1 -> k ∈ ks -> k ∉ (pop_all ks l).*1.
Proof.
  revert l. induction ks as [|k' ks IH]; intros l Hnd Hin; simpl.
  - by apply elem_of_nil in Hin.
  - destruct (decide (k ∈ ks)) as [Hks|Hks].
    + apply IH; [by apply od_pop_NoDup | done].
    + apply elem_of_cons in Hin as [->|?]; [|done].
      intros Hk. apply (od_pop_gone k' l Hnd).
      eapply elem_of_sublist; [exact Hk|].
      apply fmap_sublist, (pop_all_sublist ks (od_pop k' l)).
Qed.

Lemma pop_all_snoc ks k l : pop_all (ks ++ [k]) l = od_pop k (pop_all ks l).
Proof. unfold pop_all. by rewrite foldl_app. Qed.

Lemma pop_all_keep ks a x : x.1 ∉ ks -> pop_all ks (a ++ [x]) = pop_all ks a ++ [x].
Proof.
  revert a. induction ks as [|k ks IH]; intros a Hx; simpl; [done|].
  apply not_elem_of_cons in Hx as [Hne Hx].
  rewrite od_pop_app_notin; [by apply IH|].
  simpl. intros Hk. apply list_elem_of_singleton in Hk. congruence.
Qed.

Lemma pop_all_app_NoDup l kvs :
  NoDup l.*1 -> NoDup kvs.*1 -> NoDup (pop_all kvs.*1 l ++ kvs).*1.
Proof.
  intros Hl Hk. rewrite fmap_app. apply NoDup_app. split_and!; [|..|done].
  - by apply pop_all_NoDup.
  - intros k Hin Hin'. by apply (pop_all_gone kvs.*1 l k).
Qed.

Lemma run_app ops1 ops2 c :
  run (ops1 ++ ops2) c =
    match run ops1 c with
    | (Returned _, c') => run ops2 c'
    | (Raised, c') => (Raised, c')
    end.
Proof.
  revert c. induction ops1 as [|o r IH]; intros c; simpl; [done|].
  destruct (step c o) as [[[]|] c']; [apply IH | done].
Qed.

(** [put] of distinct keys, one after the other: drop them all from the
    old contents, append the new entries, keep the newest [max]. *)
Lemma put_all_spec c kvs :
  (0 <= max c)%Z -> wf c -> (Z.of_nat (length (d c)) <= max c)%Z ->
  NoDup kvs.*1 ->
  put_all c kvs =
    (Returned (),
     mk (max c) (lastn (Z.to_nat (max c)) (pop_all kvs.*1 (d c) ++ kvs))).
Proof.
  intros Hmx Hwf Hlen. induction kvs as [|[k v] kvs IH] using rev_ind; intros Hnd.
  - unfold put_all. simpl. rewrite app_nil_r, lastn_all by lia. by destruct c.
  - rewrite fmap_app in Hnd. apply NoDup_app in Hnd as (Hnd & Hdisj & _).
    unfold put_all in *. rewrite map_app, run_app, IH by done. simpl.
    assert (Hk : k ∉ kvs.*1).
    { intros Hk. apply (Hdisj k Hk). simpl. apply list_elem_of_here. }
    pose proof (pop_all_app_NoDup (d c) kvs Hwf Hnd) as Hnd'.
    rewrite put_spec; cbn [max d]; [|done|].
    + rewrite lastn_pop_snoc by done.
      rewrite od_pop_app_notin by done.
      rewrite fmap_app. change ([(k, v)].*1) with [k].
      rewrite pop_all_snoc. by rewrite (assoc_L (++)).
    + unfold wf. cbn [d]. eapply sublist_NoDup; [exact Hnd'|].
      apply fmap_sublist, lastn_sublist.
Qed.

(** C4. The cache never holds more than its capacity [N] after any
    sequence of [get]/[put] requests; and after [put] of [N + k] distinct
    keys in sequence ([k >= 1]), the [k] keys put first are absent ([get]
    returns [None]) and the [N] keys put last are present, each with the
    value it was put with. *)
Theorem cache_capacity_and_eviction (N : nat) :
  (forall ops : list (op K V),
      exists c', run ops (init (Z.of_nat N)) = (Returned (), c') /\
                 length (d c') ≤ N) /\
  (forall c (kvs : list (K * V)) (k : nat),
      wf c -> max c = Z.of_nat N -> length (d c) ≤ N ->
      NoDup kvs.*1 -> 1 ≤ k -> length kvs = N + k ->
      exists c', put_all c kvs = (Returned (), c') /\
                 length (d c') ≤ N /\
                 (forall key, key ∈ (take k kvs).*1 -> (get c' key).1 = None) /\
                 (forall key v, (key, v) ∈ drop k kvs -> (get c' key).1 = Some v)).
Proof.
  split.
  - intros ops.
    destruct (run_bounded ops (init (Z.of_nat N))) as (c' & Hr & _ & _ & Hl).
    + simpl. lia.
    + apply NoDup_nil_2.
    + simpl. lia.
    + exists c'. split; [done|]. simpl in Hl. lia.
  - intros c kvs k Hwf Hmx Hlen Hnd Hk Hkvs.
    eexists. split; [apply put_all_spec; [lia | done | lia | done]|].
    cbn [d]. rewrite Hmx, Nat2Z.id.
    rewrite lastn_app_ge by lia.
    assert (Hlast : lastn N kvs = drop k kvs).
    { unfold lastn. f_equal. lia. }
    rewrite Hlast. rewrite <- (take_drop k kvs), fmap_app in Hnd.
    apply NoDup_app in Hnd as (_ & Hdisj & Hnd).
    split_and!.
    + rewrite length_drop. lia.
    + intros key Hin. rewrite get_miss; [done|]. cbn [d].
      apply od_get_None. by apply Hdisj.
    + intros key v Hin. unfold get. cbn [d].
      by rewrite (od_get_elem key v (drop k kvs)).
Qed.

(** C8. In a cache of capacity [N] that holds key [key], a [get key] (a
    hit) followed by [put] of [N - 1] distinct other keys leaves [key]
    present with its image: the hit made it the most recently used entry.
    A [get] of a missing key returns [None] and leaves the cache, contents
    and order, as it was. *)
Theorem hit_protects_from_eviction (N : nat) c key v (kvs : list (K * V)) :
  wf c -> max c = Z.of_nat N -> length (d c) ≤ N ->
  od_get key (d c) = Some v ->
  NoDup kvs.*1 -> key ∉ kvs.*1 -> S (length kvs) = N ->
  (get c key).1 = Some v /\
  (exists c2, put_all (get c key).2 kvs = (Returned (), c2) /\
              (get c2 key).1 = Some v) /\
  (forall c0 k0, od_get k0 (d c0) = None -> get c0 k0 = (None, c0)).
Proof.
  intros Hwf Hmx Hlen Hhit Hnd Hkey HN.
  split_and!; [by rewrite (get_hit c key v) | | apply get_miss].
  pose proof (get_wf c key Hwf) as Hwf1.
  pose proof (get_length c key Hwf) as Hlen1.
  pose proof (get_max c key) as Hmx1.
  rewrite (get_hit c key v) in * by done. cbn [snd d max] in *.
  eexists. split.
  { apply put_all_spec; cbn [d max]; [lia | done | lia | done]. }
  cbn [d max].
  set (l := lastn _ _).
  assert (Hl : (key, v) ∈ l).
  { subst l. rewrite pop_all_keep by done. rewrite <- (assoc_L (++)).
    rewrite lastn_app. apply elem_of_app. right.
    rewrite lastn_all; [apply list_elem_of_here|].
    rewrite length_app. simpl. lia. }
  assert (Hndl : NoDup l.*1).
  { subst l. eapply sublist_NoDup; [|apply fmap_sublist, lastn_sublist].
    by apply pop_all_app_NoDup. }
  unfold get. cbn [d]. by rewrite (od_get_elem key v l).
Qed.

End Facts.

(** A cache of capacity 2 loses the first of three keys put into it. *)
Lemma cache_capacity_and_eviction_witness :
  exists c', put_all (init 2) [(1%nat, 10%nat); (2%nat, 20%nat); (3%nat, 30%nat)]
             = (Returned (), c') /\
             length (d c') ≤ 2 /\
             (forall key, key ∈ [(1%nat, 10%nat)].*1 -> (get c' key).1 = None) /\
             (forall key v, (key, v) ∈ [(2%nat, 20%nat); (3%nat, 30%nat)] ->
                            (get c' key).1 = Some v).
Proof.
  apply (proj2 (cache_capacity_and_eviction 2) (init 2)
           [(1%nat, 10%nat); (2%nat, 20%nat); (3%nat, 30%nat)] 1%nat).
  - apply NoDup_nil_2.
  - reflexivity.
  - simpl. lia.
  - by_compute.
  - lia.
  - reflexivity.
Defined.

(** A hit on key 1 in a full cache of capacity 2 keeps it through one
    further [put]. *)
Lemma hit_protects_from_eviction_witness :
  (get (mk 2 [(1%nat, 10%nat); (2%nat, 20%nat)]) 1%nat).1 = Some 10%nat /\
  (exists c2, put_all (get (mk 2 [(1%nat, 10%nat); (2%nat, 20%nat)]) 1%nat).2
                      [(3%nat, 30%nat)] = (Returned (), c2) /\
              (get c2 1%nat).1 = Some 10%nat) /\
  (forall (c0 : LRUCache.t nat nat) k0,
      od_get k0 (d c0) = None -> get c0 k0 = (None, c0)).
Proof.
  apply (hit_protects_from_eviction 2 (mk 2 [(1%nat, 10%nat); (2%nat, 20%nat)])
           1%nat 10%nat [(3%nat, 30%nat)]).
  - unfold wf. by_compute.
  - reflexivity.
  - simpl. lia.
  - reflexivity.
  - by_compute.
  - by_compute.
  - reflexivity.
Defined.

End LRUCacheFacts.

(** ** Strings *)

Section Strings.
Local Open Scope nat_scope.

Lemma rstrip_prefix (s : pystr) : exists w, s = rstrip s ++ w.
Proof.
  induction s as [|c r [w IH]]; [by exists []|]. cbn [rstrip].
  destruct (rstrip r) as [|c' r'] eqn:E.
  - destruct (isspace c); [by exists (c :: r) | exists r; done].
  - exists w. simpl. f_equal. exact IH.
Qed.

(** What [rstrip] removes is whitespace. *)
Lemma rstrip_suffix_space (s : pystr) :
  exists w, s = rstrip s ++ w /\ Forall (fun ch => isspace ch = true) w.
Proof.
  induction s as [|c r (w & IH & Hw)]; [by exists []|]. cbn [rstrip].
  destruct (rstrip r) as [|c' r'] eqn:E.
  - simpl in IH. subst w. destruct (isspace c) eqn:Ec.
    + exists (c :: r). split; [done|]. by apply Forall_cons.
    + by exists r.
  - exists w. split; [|done]. simpl. f_equal. exact IH.
Qed.

(** A slice of a text with whitespace appended is the slice of the text
    followed by whitespace. *)
Lemma slice_app_space (t w : pystr) a b :
  Forall (fun ch => isspace ch = true) w ->
  exists x, slice (t ++ w) a b = slice t a b ++ x /\
            Forall (fun ch => isspace ch = true) x.
Proof.
  intros Hw. unfold slice. rewrite drop_app, take_app. eexists. split; [done|].
  by apply Forall_take, Forall_drop.
Qed.

Lemma slice_app_within {A} (t w : list A) a b :
  b ≤ length t -> slice (t ++ w) a b = slice t a b.
Proof.
  intros Hb. unfold slice. rewrite drop_app, take_app, length_drop.
  replace (b - a - (length t - a)) with 0 by lia. by rewrite take_0, app_nil_r.
Qed.

Lemma slice_middle {A} (pre c post : list A) :
  slice (pre ++ c ++ post) (length pre) (length pre + length c) = c.
Proof.
  unfold slice. rewrite drop_app_length.
  replace (length pre + length c - length pre) with (length c) by lia.
  by rewrite take_app_length.
Qed.
End Strings.

(** ** Extraction *)

Module ExtractionFacts.
Import DocModel Contribution.
Local Open Scope nat_scope.

Lemma register_all_app fid a b g :
  register_all fid (a ++ b) g = register_all (fid + length a) b (register_all fid a g).
Proof.
  revert fid g. induction a as [|f a IH]; intros fid g; simpl.
  - by rewrite Nat.add_0_r.
  - rewrite IH. f_equal. lia.
Qed.

Lemma register_all_lookup fs fid g k :
  register_all fid fs g !! k =
    if decide (fid < k ≤ fid + length fs) then fs !! (k - fid - 1) else g !! k.
Proof.
  revert fid g. induction fs as [|f fs IH]; intros fid g; simpl.
  - rewrite decide_False by lia. done.
  - rewrite IH. destruct (decide (k = S fid)) as [->|Hne].
    + rewrite decide_False by lia. rewrite decide_True by lia.
      rewrite lookup_insert_eq. by replace (S fid - fid - 1) with 0 by lia.
    + rewrite lookup_insert_ne by done.
      destruct (decide (S fid < k ≤ S fid + length fs)).
      * rewrite decide_True by lia.
        by replace (k - fid - 1) with (S (k - S fid - 1)) by lia.
      * by rewrite decide_False by lia.
Qed.

Lemma effect_refl st : effect st st [] [].
Proof.
  unfold effect. simpl. rewrite app_nil_r, !Nat.add_0_r. done.
Qed.

Lemma effect_trans st st1 st2 c1 c2 fs1 fs2 :
  effect st st1 c1 fs1 -> effect st1 st2 c2 fs2 ->
  effect st st2 (c1 ++ c2) (fs1 ++ fs2).
Proof.
  intros (Hb1 & Hc1 & Hf1 & Hg1 & Ho1) (Hb2 & Hc2 & Hf2 & Hg2 & Ho2).
  unfold effect. rewrite !length_app. split_and!.
  - by rewrite Hb2, Hb1, (assoc_L (++)).
  - lia.
  - lia.
  - by rewrite Hg2, Hg1, Hf1, register_all_app.
  - congruence.
Qed.

Lemma effect_eq st st' c c' fs fs' :
  effect st st' c fs -> c = c' -> fs = fs' -> effect st st' c' fs'.
Proof. by intros H <- <-. Qed.

Lemma effect_append s n st : n = length s -> effect st (append_part s n st) s [].
Proof.
  intros ->. unfold effect, buffer, join0. simpl.
  rewrite concat_app. simpl. rewrite app_nil_r, Nat.add_0_r. done.
Qed.

Lemma effect_register f st : effect st (register f (next_fig st)) [] [f].
Proof.
  unfold effect, buffer. simpl. rewrite app_nil_r, Nat.add_0_r. split_and!; [done..|lia|done|done].
Qed.

(** The text with its separator, as both strategies append it. *)
Lemma effect_text pg st :
  effect st
    (if nonempty (strip (or_empty (get_text pg)))
     then append_part nl2 2
            (append_part (strip (or_empty (get_text pg)))
                         (length (strip (or_empty (get_text pg)))) st)
     else st)
    (text_part pg) [].
Proof.
  unfold text_part. destruct (nonempty _).
  - change (@nil Figure) with (@nil Figure ++ []).
    eapply effect_trans; by apply effect_append.
  - apply effect_refl.
Qed.

Lemma simple_marks_effect pno imgs marks st :
  (simple_marks pno imgs marks st).1 = marks ++ marks_from (fig_id st) pno imgs /\
  effect st (simple_marks pno imgs marks st).2 []
         (map (fun x => {| page := pno; xref := XInt x; bbox := None |}) imgs).
Proof.
  revert marks st. induction imgs as [|x r IH]; intros marks st; simpl.
  - rewrite app_nil_r. split; [done | apply effect_refl].
  - destruct (IH (marks ++ [figure_mark (S (fig_id st)) pno])
                 (register {| page := pno; xref := XInt x; bbox := None |}
                           (next_fig st))) as [Hm He].
    split.
    + rewrite Hm. simpl. by rewrite <- (assoc_L (++)).
    + change (@nil N) with (@nil N ++ []).
      change (?f :: map ?g r) with ([f] ++ map g r).
      eapply effect_trans; [apply effect_register | exact He].
Qed.

(** A page of the simple strategy appends its contribution, registers
    its figures, and records the range of what it appended. *)
Lemma simple_page_effect pno pg st :
  exists st2, effect st st2 (simple_contribution (fig_id st) pno pg)
                     (simple_figures pno pg) /\
              simple_page pno pg st = record_offsets (char_count st) st2.
Proof.
  unfold simple_page, simple_contribution, simple_figures.
  pose proof (effect_text pg st) as Ht.
  set (st1 := if nonempty (strip (or_empty (get_text pg))) then _ else st) in *.
  assert (Hfid : fig_id st1 = fig_id st).
  { destruct Ht as (_ & _ & Hf & _). simpl in Hf. lia. }
  destruct (default [] (get_images pg)) as [|x imgs] eqn:Eimgs.
  - simpl. exists st1. split; [|done].
    rewrite <- (app_nil_r (@nil Figure)).
    eapply effect_trans; [exact Ht | apply effect_refl].
  - cbn [nonempty].
    pose proof (simple_marks_effect pno (x :: imgs) [] st1) as [Hm He].
    destruct (simple_marks pno (x :: imgs) [] st1) as [marks st'].
    cbn [fst snd] in Hm, He. rewrite app_nil_l in Hm. subst marks.
    rewrite Hfid.
    eexists. split; [|reflexivity].
    eapply effect_eq.
    + eapply effect_trans; [exact Ht|].
      eapply effect_trans; [exact He|].
      eapply effect_trans; by apply effect_append.
    + by rewrite app_nil_l.
    + by rewrite !app_nil_r.
Qed.

Lemma text_lines_effect lns w st :
  (text_lines lns w st).1 = w || existsb (fun ln => negb (is_blank ln)) lns /\
  effect st (text_lines lns w st).2 (concat (map line_part lns)) [].
Proof.
  revert w st. induction lns as [|ln r IH]; intros w st; simpl.
  - rewrite orb_false_r. split; [done | apply effect_refl].
  - unfold is_blank at 1, line_part at 1. rewrite negb_involutive.
    destruct (nonempty (strip (line_text ln))).
    + destruct (IH true (append_part nl 1
                  (append_part (line_text ln) (length (line_text ln)) st)))
        as [Hw He].
      split; [by rewrite Hw, orb_true_r|].
      eapply effect_eq.
      * eapply effect_trans; [|exact He].
        eapply effect_trans; by apply effect_append.
      * by rewrite <- !(assoc_L (++)).
      * done.
    + destruct (IH w st) as [Hw He]. split; [done|].
      eapply effect_eq; [exact He | done | done].
Qed.

Lemma structured_blocks_effect hdr ph pno blks w st :
  (structured_blocks hdr ph pno blks w st).1 = w || blocks_wrote hdr ph blks /\
  effect st (structured_blocks hdr ph pno blks w st).2
         (blocks_part hdr ph pno blks (fig_id st))
         (omap (block_figure pno) blks).
Proof.
  revert w st. induction blks as [|blk r IH]; intros w st.
  - simpl. rewrite orb_false_r. split; [done | apply effect_refl].
  - cbn [structured_blocks blocks_part blocks_wrote existsb omap list_omap].
    fold (blocks_wrote hdr ph r). fold (omap (block_figure pno) r).
    fold (dropped hdr ph blk).
    destruct (dropped hdr ph blk) eqn:Edrop.
    { assert (Ht : (default 0 (blk_type blk) =? 0)%Z = true).
      { unfold dropped in Edrop. by destruct hdr, (default 0 (blk_type blk) =? 0)%Z. }
      assert (Hbf : block_figure pno blk = None).
      { unfold block_figure. apply Z.eqb_eq in Ht. by rewrite Ht. }
      rewrite Hbf. cbn [negb andb orb]. apply IH. }
    destruct (default 0 (blk_type blk) =? 0)%Z eqn:Et0.
    { assert (Hbf : block_figure pno blk = None).
      { unfold block_figure. apply Z.eqb_eq in Et0. by rewrite Et0. }
      rewrite Hbf. cbn [negb andb orb].
      pose proof (text_lines_effect (default [] (blk_lines blk)) w st) as [Hw He].
      destruct (text_lines (default [] (blk_lines blk)) w st) as [w1 st1].
      cbn [fst snd] in Hw, He.
      destruct (IH w1 (append_part nl 1 st1)) as [Hw' He'].
      assert (Hfid : fig_id (append_part nl 1 st1) = fig_id st).
      { destruct He as (_ & _ & Hf & _). simpl in Hf |- *. lia. }
      rewrite Hfid in He'.
      split; [by rewrite Hw', Hw, orb_assoc|].
      eapply effect_eq.
      - eapply effect_trans; [exact He|].
        eapply effect_trans; [by apply (effect_append nl 1) | exact He'].
      - unfold text_block_part. by rewrite <- !(assoc_L (++)).
      - done. }
    cbn [negb andb orb]. unfold block_figure at 1 2.
    destruct (default 0 (blk_type blk) =? 1)%Z eqn:Et1; [|apply IH].
    destruct (py_or (blk_xref blk) (blk_image blk)) as [xv|] eqn:Ex; [|apply IH].
    destruct (truthy (Some xv)) eqn:Etr; [|apply IH].
    set (f := {| page := pno; xref := xv; bbox := Some (bbox_of blk) |}).
    set (mark := figure_mark (fig_id (next_fig st)) pno).
    set (st2 := append_part nl2 2 (append_part mark (length mark) (next_fig st))).
    destruct (IH w (register f st2)) as [Hw' He'].
    split; [exact Hw'|].
    assert (Hst : register f st2
                  = append_part nl2 2
                      (append_part mark (length mark) (register f (next_fig st)))).
    { done. }
    rewrite Hst in He' |- *.
    eapply effect_eq.
    + eapply effect_trans; [apply (effect_register f)|].
      eapply effect_trans; [by apply (effect_append mark)|].
      eapply effect_trans; [by apply (effect_append nl2 2)|].
      exact He'.
    + simpl. by rewrite <- !(assoc_L (++)).
    + done.
Qed.

(** A page of the structured strategy does the same with its own
    contribution and figures. *)
Lemma structured_page_effect hdr pno pg st :
  exists st2, effect st st2 (structured_contribution hdr (fig_id st) pno pg)
                     (structured_figures pno pg) /\
              structured_page hdr pno pg st = record_offsets (char_count st) st2.
Proof.
  unfold structured_page, structured_contribution, structured_figures.
  pose proof (structured_blocks_effect hdr (rect_height pg) pno
                (default [] (rawdict_blocks pg)) false st) as [Hw He].
  destruct (structured_blocks hdr (rect_height pg) pno
              (default [] (rawdict_blocks pg)) false st) as [wrote st1].
  cbn [fst snd] in Hw, He. rewrite orb_false_l in Hw. rewrite <- Hw.
  eexists. split; [|reflexivity].
  destruct wrote.
  - eapply effect_eq; [exact He | by rewrite app_nil_r | done].
  - eapply effect_eq.
    + eapply effect_trans; [exact He | apply effect_text].
    + done.
    + by rewrite app_nil_r.
Qed.

Lemma body_effect md hdr pno pg st :
  exists st2, effect st st2 (contribution md hdr (fig_id st) pno pg)
                     (page_figures md pno pg) /\
              body_of md hdr pno pg st = record_offsets (char_count st) st2.
Proof.
  destruct md; [apply simple_page_effect | apply structured_page_effect].
Qed.

(** The page loop over a document's remaining pages: it returns, the
    buffer grows by the pages' contributions, every page's range is
    recorded, and the figures get the next ids in order. *)
Lemma page_loop_effect md hdr pages pgs :
  forall pre st, pages = pre ++ pgs ->
    exists st',
      page_loop (body_of md hdr) (Some pages) (seq (length pre) (length pgs)) st
        = Returned st' /\
      buffer st' = buffer st
                   ++ concat (contributions_from md hdr (length pre) (fig_id st) pgs) /\
      offs st' = offs st
                 ++ offsets_from (char_count st)
                      (contributions_from md hdr (length pre) (fig_id st) pgs) /\
      figs st' = register_all (fig_id st) (figures_from md (length pre) pgs) (figs st).
Proof.
  induction pgs as [|pg r IH]; intros pre st Hpages.
  - exists st. simpl. by rewrite !app_nil_r.
  - cbn [length seq page_loop]. subst pages.
    rewrite (list_lookup_middle pre r pg (length pre) eq_refl).
    destruct (body_effect md hdr (length pre) pg st)
      as (st2 & (Hb & Hc & Hf & Hg & Ho) & Hbody).
    rewrite Hbody.
    destruct (IH (pre ++ [pg]) (record_offsets (char_count st) st2))
      as (st' & Hloop & Hb' & Ho' & Hg').
    { by rewrite <- (assoc_L (++)). }
    rewrite length_app, Nat.add_1_r in Hloop, Hb', Ho', Hg'.
    cbn [fig_id char_count record_offsets offs figs] in Hloop, Hb', Ho', Hg'.
    exists st'. split; [exact Hloop|].
    cbn [contributions_from figures_from offsets_from concat].
    rewrite Hf in Hb', Ho', Hg'. rewrite Hc in Ho'.
    split_and!.
    + rewrite Hb'. unfold buffer at 1. cbn [parts record_offsets].
      fold (buffer st2). by rewrite Hb, <- (assoc_L (++)).
    + rewrite Ho', Ho. by rewrite <- (assoc_L (++)).
    + by rewrite Hg', Hg, register_all_app.
Qed.

Lemma offsets_from_lookup cs : forall s0 i c,
  cs !! i = Some c ->
  offsets_from s0 cs !! i
  = Some (s0 + length (concat (take i cs)),
          s0 + length (concat (take i cs)) + length c).
Proof.
  induction cs as [|c0 cs IH]; intros s0 i c Hi; [done|].
  destruct i as [|i]; simpl in *.
  - injection Hi as ->. by rewrite Nat.add_0_r.
  - rewrite (IH _ _ _ Hi), length_app. do 2 f_equal; lia.
Qed.

Lemma offsets_from_length s0 cs : length (offsets_from s0 cs) = length cs.
Proof. revert s0. induction cs as [|c cs IH]; intros s0; simpl; [done|]. by rewrite IH. Qed.

Lemma contributions_from_length md hdr pno fig0 pgs :
  length (contributions_from md hdr pno fig0 pgs) = length pgs.
Proof.
  revert pno fig0. induction pgs as [|pg r IH]; intros; simpl; [done|]. by rewrite IH.
Qed.

Lemma concat_take_le {A} (cs : list (list A)) i j :
  i ≤ j -> length (concat (take i cs)) ≤ length (concat (take j cs)).
Proof.
  intros Hij. rewrite <- (take_drop i (take j cs)).
  rewrite take_take, Nat.min_l by done. rewrite concat_app, length_app. lia.
Qed.

(** Either build, on a model that holds a document: the outputs in closed form. *)
Lemma build_spec md m pages :
  doc m = Some pages -> page_count m = length pages ->
  _build md m =
    Returned (mk (Some pages) (length pages) (dpi m) (mode m) (strip_headers m)
                 (rstrip (concat (contributions md (strip_headers m) pages)))
                 (register_all 0 (doc_figures md pages) ∅)
                 (offsets_from 0 (contributions md (strip_headers m) pages))
                 (page_pix_cache m)).
Proof.
  intros Hdoc Hpc. unfold _build, build_loop. rewrite Hdoc, Hpc.
  destruct (page_loop_effect md (strip_headers m) pages pages [] (build_start m) eq_refl)
    as (st' & Hl & Hb & Ho & Hg).
  change (match md with
          | simple => simple_page
          | structured => structured_page (strip_headers m)
          end) with (body_of md (strip_headers m)).
  cbn [length] in Hl. rewrite Hl. unfold finish. rewrite Hdoc, Hpc, Hb, Ho, Hg.
  reflexivity.
Qed.

Lemma open_spec pages m :
  open pages m =
    Returned (mk (Some pages) (length pages) (dpi m) (mode m) (strip_headers m)
                 (rstrip (concat (contributions (mode m) (strip_headers m) pages)))
                 (register_all 0 (doc_figures (mode m) pages) ∅)
                 (offsets_from 0 (contributions (mode m) (strip_headers m) pages))
                 (page_pix_cache m)).
Proof.
  unfold open, _build_simple, _build_structured.
  destruct (mode m) eqn:Emode;
    rewrite (build_spec _ _ pages) by done; reflexivity.
Qed.

(** C1, as amended. In either mode, for every page index [i] below the
    page count, the range [offsets[i]] cuts exactly page [i]'s contribution
    (text, figure markers, separators) out of the untrimmed buffer the
    ranges were recorded against, and [MergedText] is that buffer with
    its trailing whitespace removed.  The same range applied to
    [MergedText] gives the contribution whenever its end lies within
    [MergedText], and in general the contribution with trailing
    whitespace cut off: the contribution is that slice followed by
    whitespace only. *)
Theorem offsets_cut_contributions pages m :
  exists m',
    open pages m = Returned m' /\
    let cs := contributions (mode m) (strip_headers m) pages in
    length cs = length pages /\
    merged_text m' = rstrip (concat cs) /\
    slices_reconstruct (concat cs) (page_offsets m') cs /\
    (forall i c s e,
        cs !! i = Some c -> page_offsets m' !! i = Some (s, e) ->
        (e ≤ length (merged_text m') -> slice (merged_text m') s e = c) /\
        exists w, c = slice (merged_text m') s e ++ w /\
                  Forall (fun ch => isspace ch = true) w).
Proof.
  eexists. split; [apply open_spec|]. cbn [merged_text page_offsets].
  set (cs := contributions _ _ _).
  assert (Hcut : forall i c, cs !! i = Some c ->
            offsets_from 0 cs !! i
              = Some (length (concat (take i cs)),
                      length (concat (take i cs)) + length c) /\
            slice (concat cs) (length (concat (take i cs)))
                  (length (concat (take i cs)) + length c) = c).
  { intros i c Hi. split; [by rewrite (offsets_from_lookup cs 0 i c)|].
    rewrite <- (take_drop_middle cs i c Hi) at 1.
    rewrite concat_app. simpl. apply slice_middle. }
  split_and!.
  - apply contributions_from_length.
  - done.
  - intros i c Hi. destruct (Hcut i c Hi) as [Ho Hs]. eauto.
  - intros i c s e Hi Ho. destruct (Hcut i c Hi) as [Ho' Hs].
    rewrite Ho' in Ho. injection Ho as <- <-.
    destruct (rstrip_suffix_space (concat cs)) as (w & Hw & Hsp).
    rewrite Hw in Hs. split.
    + intros He. by rewrite slice_app_within in Hs.
    + destruct (slice_app_space (rstrip (concat cs)) w
                  (length (concat (take i cs)))
                  (length (concat (take i cs)) + length c) Hsp) as (x & Hx & Hxs).
      exists x. by rewrite <- Hx.
Qed.

(** The claim as stated fails: for a single page with text ["a"] the
    range is [(0, 3)], the contribution is ["a\n\n"], and [MergedText] is
    ["a"]. *)
Lemma merged_text_slice_counterexample :
  exists m',
    open [Sample.page_a] (init 110 simple false) = Returned m' /\
    ~ slices_reconstruct (merged_text m') (page_offsets m')
        (contributions simple false [Sample.page_a]).
Proof.
  eexists. split; [apply open_spec|]. intros H.
  destruct (H 0 (lit "a" ++ nl2) eq_refl) as (s & e & Ho & Hs).
  vm_compute in Ho. injection Ho as <- <-. vm_compute in Hs. discriminate.
Qed.

(** C2. After extraction in either mode there is one range per page, and
    for all page indices [i < j] the end of range [i] is at most the start
    of range [j]; every range has its start at most its end. *)
Theorem offsets_monotone pages m :
  exists m',
    open pages m = Returned m' /\
    length (page_offsets m') = length pages /\
    (forall i s e, page_offsets m' !! i = Some (s, e) -> s ≤ e) /\
    (forall i j si ei sj ej,
        i < j ->
        page_offsets m' !! i = Some (si, ei) ->
        page_offsets m' !! j = Some (sj, ej) ->
        ei ≤ sj).
Proof.
  eexists. split; [apply open_spec|]. cbn [page_offsets].
  set (cs := contributions _ _ _).
  assert (Hlk : forall i s e, offsets_from 0 cs !! i = Some (s, e) ->
            exists c, cs !! i = Some c /\ s = length (concat (take i cs)) /\
                      e = length (concat (take (S i) cs))).
  { intros i s e Ho.
    destruct (cs !! i) as [c|] eqn:Hi.
    - rewrite (offsets_from_lookup cs 0 i c Hi) in Ho. injection Ho as <- <-.
      exists c. rewrite (take_S_r cs i c Hi), concat_app, length_app. simpl.
      rewrite app_nil_r. done.
    - apply lookup_ge_None in Hi. apply lookup_lt_Some in Ho.
      rewrite offsets_from_length in Ho. lia. }
  split_and!.
  - rewrite offsets_from_length. apply contributions_from_length.
  - intros i s e Ho. destruct (Hlk i s e Ho) as (c & _ & -> & ->).
    apply concat_take_le. lia.
  - intros i j si ei sj ej Hij Hi Hj.
    destruct (Hlk i si ei Hi) as (ci & _ & _ & ->).
    destruct (Hlk j sj ej Hj) as (cj & _ & -> & _).
    apply concat_take_le. lia.
Qed.

Lemma block_figure_Some pno blk f :
  block_figure pno blk = Some f ->
  page f = pno /\ bbox f = Some (reported_box blk) /\
  default 0%Z (blk_type blk) = 1%Z /\
  py_or (blk_xref blk) (blk_image blk) = Some (xref f).
Proof.
  unfold block_figure. destruct (default 0 (blk_type blk) =? 1)%Z eqn:Et; [|done].
  destruct (py_or _ _) as [xv|]; [|done].
  destruct (truthy _); [|done]. intros [= <-]. apply Z.eqb_eq in Et. done.
Qed.

Lemma page_figures_page md pno pg f : f ∈ page_figures md pno pg -> page f = pno.
Proof.
  destruct md; simpl.
  - unfold simple_figures. intros Hin.
    apply list_elem_of_fmap in Hin as (x & -> & _). done.
  - unfold structured_figures. intros Hin.
    apply list_elem_of_omap in Hin as (blk & _ & Hbf).
    by apply block_figure_Some in Hbf as [? _].
Qed.

Lemma figures_from_owner md pgs : forall pno k f,
  figures_from md pno pgs !! k = Some f ->
  exists i pg, pgs !! i = Some pg /\ page f = pno + i /\
               f ∈ page_figures md (pno + i) pg.
Proof.
  induction pgs as [|pg r IH]; intros pno k f Hk; [done|].
  simpl in Hk. apply lookup_app_Some in Hk as [Hk|[_ Hk]].
  - exists 0, pg. rewrite Nat.add_0_r.
    assert (Hin : f ∈ page_figures md pno pg) by (apply list_elem_of_lookup; eauto).
    split_and!; [done | by apply page_figures_page in Hin | done].
  - destruct (IH _ _ _ Hk) as (i & pg' & Hi & Hp & Hin).
    exists (S i), pg'. replace (pno + S i) with (S pno + i) by lia. done.
Qed.

Lemma figures_from_sorted md pgs : forall pno i j fi fj,
  i ≤ j ->
  figures_from md pno pgs !! i = Some fi ->
  figures_from md pno pgs !! j = Some fj ->
  page fi ≤ page fj.
Proof.
  induction pgs as [|pg r IH]; intros pno i j fi fj Hij Hi Hj; [done|].
  simpl in Hi, Hj.
  apply lookup_app_Some in Hi as [Hi|[Hli Hi]];
    apply lookup_app_Some in Hj as [Hj|[Hlj Hj]].
  - assert (page fi = pno) by (eapply page_figures_page, list_elem_of_lookup; eauto).
    assert (page fj = pno) by (eapply page_figures_page, list_elem_of_lookup; eauto).
    lia.
  - assert (page fi = pno) by (eapply page_figures_page, list_elem_of_lookup; eauto).
    destruct (figures_from_owner _ _ _ _ _ Hj) as (? & ? & _ & ? & _). lia.
  - apply lookup_lt_Some in Hj. lia.
  - eapply (IH (S pno)); [|exact Hi|exact Hj]. lia.
Qed.

(** C5. Within one extraction pass of either mode, the ids in the figure
    registry are exactly 1, 2, 3, ... in the order the figures are met
    across the pages: id [k + 1] is the [k]-th figure of the document, no
    id is 0, and larger ids belong to the same or later pages. Every
    registered figure belongs to the page recorded as its owner. In
    simple mode its bounding box is unknown and it is one of the page's
    embedded images. In structured mode it is one of the page's image
    blocks and its bounding box is the one that block reports under
    ["bbox"] (all zero for a block that reports none). *)
Theorem figure_ids_sequential pages m :
  exists m',
    open pages m = Returned m' /\
    figures m' !! 0 = None /\
    (forall k, figures m' !! S k = doc_figures (mode m) pages !! k) /\
    (forall a b fa fb,
        a < b -> figures m' !! a = Some fa -> figures m' !! b = Some fb ->
        page fa ≤ page fb) /\
    (forall k f,
        figures m' !! k = Some f ->
        exists pg, pages !! page f = Some pg /\
          match mode m with
          | simple =>
              bbox f = None /\
              exists x, x ∈ default [] (get_images pg) /\ xref f = XInt x
          | structured =>
              exists blk, blk ∈ default [] (rawdict_blocks pg) /\
                default 0%Z (blk_type blk) = 1%Z /\
                bbox f = Some (match blk_bbox blk with
                               | Some box => box
                               | None => (0%float, 0%float, 0%float, 0%float)
                               end) /\
                py_or (blk_xref blk) (blk_image blk) = Some (xref f)
          end).
Proof.
  eexists. split; [apply open_spec|]. cbn [figures].
  set (fs := doc_figures (mode m) pages).
  assert (Hlk : forall k, register_all 0 fs ∅ !! S k = fs !! k).
  { intros k. rewrite register_all_lookup.
    destruct (decide (0 < S k ≤ 0 + length fs)).
    - f_equal. lia.
    - rewrite lookup_empty. symmetry. apply lookup_ge_None. lia. }
  assert (H0 : register_all 0 fs ∅ !! 0 = None).
  { rewrite register_all_lookup, decide_False by lia. apply lookup_empty. }
  split_and!; [done.. | |].
  - intros [|a] [|b] fa fb Hab Ha Hb; try lia; [by rewrite H0 in Ha|].
    rewrite Hlk in Ha, Hb.
    eapply (figures_from_sorted (mode m) pages 0 a b); [lia | done..].
  - intros [|k] f Hk; [by rewrite H0 in Hk|]. rewrite Hlk in Hk.
    destruct (figures_from_owner _ _ _ _ _ Hk) as (i & pg & Hi & Hp & Hin).
    simpl in Hp, Hin. subst i. exists pg. split; [done|].
    destruct (mode m); simpl in Hin.
    + unfold simple_figures in Hin.
      apply list_elem_of_fmap in Hin as (x & -> & Hx). eauto.
    + unfold structured_figures in Hin.
      apply list_elem_of_omap in Hin as (blk & Hblk & Hbf).
      apply block_figure_Some in Hbf as (_ & ? & ? & ?). eauto.
Qed.

(** C9. Extraction is deterministic: it returns, and running it again
    on its own result, by reopening the same document or by calling the
    build of the same mode once more, returns the same model, with the
    same [MergedText], offsets and figure registry. The result does not
    depend on the text, offsets and figures the model held before: they
    are discarded, not updated. *)
Theorem extraction_deterministic pages m :
  exists m1,
    open pages m = Returned m1 /\
    open pages m1 = Returned m1 /\
    _build (mode m1) m1 = Returned m1 /\
    (forall txt fgs ofs,
        open pages (mk (doc m) (page_count m) (dpi m) (mode m) (strip_headers m)
                       txt fgs ofs (page_pix_cache m))
        = Returned m1).
Proof.
  eexists. split; [apply open_spec|]. split_and!.
  - by rewrite open_spec.
  - by rewrite (build_spec _ _ pages).
  - intros txt fgs ofs. by rewrite open_spec.
Qed.

End ExtractionFacts.

(** ** Rendering a page *)

Module RenderFacts.
Import LRUCache LRUCacheFacts DocModel Invariant.

Lemma index_in_range {A} (l : list A) (i : Z) :
  0 <= i < Z.of_nat (length l) ->
  exists x, index l i = Some x /\ l !! Z.to_nat i = Some x.
Proof.
  intros Hi. unfold index, position.
  destruct (Z.ltb_spec i 0); [lia|].
  destruct (Z.ltb_spec i (Z.of_nat (length l))); [|lia].
  destruct (lookup_lt_is_Some_2 l (Z.to_nat i)) as [x Hx]; [lia|]. eauto.
Qed.

Lemma in_range_test (pno : Z) (n : nat) :
  (pno <? 0) || (pno >=? Z.of_nat n) = false <-> 0 <= pno < Z.of_nat n.
Proof.
  rewrite Z.geb_leb.
  destruct (Z.ltb_spec pno 0), (Z.leb_spec (Z.of_nat n) pno); simpl;
    split; intros; first [done | lia | exfalso; lia].
Qed.

Lemma with_cache_same m : with_cache m (page_pix_cache m) = m.
Proof. by destruct m. Qed.

Lemma png_image_genuine env pix img : png_image env pix = Some img -> is_tile img = false.
Proof.
  unfold png_image. destruct (tobytes_png env pix); [|done].
  destruct (fromData_raises env _); [done|]. by intros [= <-].
Qed.

(** The [try] block never hands the placeholder to [put]. *)
Lemma rasterise_genuine env dpi0 pg safe img :
  rasterise env dpi0 pg safe = Some img -> is_tile img = false.
Proof.
  unfold rasterise. destruct (get_pixmap env pg _) as [pix0|]; [|done].
  destruct (if _ : bool then _ else _) as [pix|]; [|done].
  destruct safe; [apply png_image_genuine|].
  destruct (format_of (pix_n pix)); [|apply png_image_genuine].
  destruct (fromSamples_raises env pix); [done|]. by intros [= <-].
Qed.

Lemma init_ok dpi0 md hdr : model_ok (DocModel.init dpi0 md hdr).
Proof.
  split; [done|]. split_and!; [done | apply NoDup_nil_2 | simpl; lia |].
  intros k img Hin. by apply elem_of_nil in Hin.
Qed.

Lemma open_ok pages m m' :
  cache_ok (page_pix_cache m) -> open pages m = Returned m' -> model_ok m'.
Proof.
  intros Hc. rewrite ExtractionFacts.open_spec. intros [= <-].
  split; [|done]. intros pages' [= <-]. done.
Qed.

Lemma close_ok m : model_ok m -> model_ok (close m).
Proof.
  intros [Hd Hc]. unfold close. destruct (doc m) as [[|pg pages]|] eqn:E;
    [by split | | by split].
  split; [done | exact Hc].
Qed.

(** A hit or a store leaves the entry last, and the cache in order. *)
Lemma cache_ok_snoc (c : LRUCache.t Key QImage) key img :
  cache_ok c -> is_tile img = false ->
  cache_ok (LRUCache.mk (max c)
              (lastn (Z.to_nat (max c)) (od_pop key (d c) ++ [(key, img)]))) /\
  od_get key (lastn (Z.to_nat (max c)) (od_pop key (d c) ++ [(key, img)])) = Some img /\
  last (lastn (Z.to_nat (max c)) (od_pop key (d c) ++ [(key, img)])) = Some (key, img).
Proof.
  intros (Hmx & Hwf & Hlen & Hno) Himg.
  pose proof (keys_snoc_NoDup key img (d c) Hwf) as Hnd.
  set (l := od_pop key (d c) ++ [(key, img)]) in *.
  assert (Hsub : lastn (Z.to_nat (max c)) l `sublist_of` l) by apply lastn_sublist.
  assert (Hin : (key, img) ∈ lastn (Z.to_nat (max c)) l).
  { subst l. rewrite lastn_app, Hmx. apply elem_of_app. right.
    rewrite lastn_all by (simpl; lia). apply list_elem_of_here. }
  assert (Hnd' : NoDup (lastn (Z.to_nat (max c)) l).*1).
  { eapply sublist_NoDup; [exact Hnd | by apply fmap_sublist]. }
  split_and!.
  - split_and!; cbn [max d]; [done | done | rewrite lastn_length, Hmx; lia |].
    intros k i Hki. apply (elem_of_sublist _ _ _ Hki) in Hsub.
    subst l. apply elem_of_app in Hsub as [Hold|Hnew].
    + apply (Hno k). eapply elem_of_sublist; [exact Hold | apply od_pop_sublist].
    + apply list_elem_of_singleton in Hnew. by injection Hnew as -> ->.
  - by apply od_get_elem.
  - subst l. rewrite lastn_app, Hmx.
    rewrite (lastn_all _ [(key, img)]) by (simpl; lia). apply last_snoc.
Qed.

(** [render_page] for a page in range, by cases on the cache, on the
    page load and on the [try] block. *)
Lemma render_page_in_range env m pno safe pages :
  model_ok m -> doc m = Some pages -> 0 <= pno < Z.of_nat (page_count m) ->
  exists pg, pages !! Z.to_nat pno = Some pg /\
    let c := page_pix_cache m in
    let key := _page_key m pno safe in
    render_page env m pno safe =
      match od_get key (d c) with
      | Some img =>
          (Returned (Some img),
           with_cache m (LRUCache.mk (max c) (od_pop key (d c) ++ [(key, img)])))
      | None =>
          if load_page_raises env pno then (Raised, m)
          else
            match rasterise env (dpi m) pg safe with
            | Some img =>
                (Returned (Some img),
                 with_cache m
                   (LRUCache.mk (max c)
                      (lastn (Z.to_nat (max c)) (od_pop key (d c) ++ [(key, img)]))))
            | None => (Returned (Some (failure_tile pno)), m)
            end
      end.
Proof.
  intros [Hdoc (Hmx & Hwf & Hlen & Hno)] Hpages Hrange.
  destruct (index_in_range pages pno) as (pg & Hidx & Hlk).
  { by rewrite <- (Hdoc pages Hpages). }
  exists pg. split; [done|]. cbn zeta. unfold render_page.
  rewrite Hpages. rewrite (proj2 (in_range_test pno (page_count m)) Hrange).
  destruct (od_get (_page_key m pno safe) (d (page_pix_cache m))) as [img|] eqn:Hget.
  - by rewrite (get_hit _ _ img).
  - rewrite get_miss by done. rewrite with_cache_same.
    destruct (load_page_raises env pno); [done|]. rewrite Hidx.
    destruct (rasterise env (dpi m) pg safe) as [img|]; [|done].
    rewrite put_spec by (done || lia). done.
Qed.

(** *** The [try] block against the pipeline of the specification *)

Lemma format_of_channels n fmt : format_of n = Some fmt <-> Pipeline.channels n fmt.
Proof.
  unfold format_of. split.
  - destruct (Z.eqb_spec n 1) as [->|]; [intros [= <-]; constructor|].
    destruct (Z.eqb_spec n 3) as [->|]; [intros [= <-]; constructor|].
    destruct (Z.eqb_spec n 4) as [->|]; [intros [= <-]; constructor|]. done.
  - intros []; reflexivity.
Qed.

Lemma format_of_None n :
  format_of n = None <-> forall fmt, ~ Pipeline.channels n fmt.
Proof.
  split.
  - intros Hn fmt Hc. apply format_of_channels in Hc. congruence.
  - intros Hn. destruct (format_of n) as [fmt|] eqn:E; [|done].
    apply format_of_channels in E. by apply Hn in E.
Qed.

Lemma oversized_test pix :
  (pix_width pix >? 6000) || (pix_height pix >? 8000) = Pipeline.oversized pix.
Proof. unfold Pipeline.oversized. by rewrite !Z.gtb_ltb. Qed.

(** Once the raster is there, the [try] block is its last part. *)
Lemma rasterise_of_raster env dpi0 pg safe pix :
  Pipeline.raster env dpi0 pg pix ->
  rasterise env dpi0 pg safe =
    if safe then png_image env pix
    else match format_of (pix_n pix) with
         | None => png_image env pix
         | Some fmt =>
             if fromSamples_raises env pix then None
             else Some (FromSamples (pix_samples pix) (pix_width pix)
                          (pix_height pix) (pix_stride pix) fmt)
         end.
Proof.
  intros [pix1 H1 Hsmall | pix0 pix1 H0 Hbig H1]; unfold rasterise;
    fold (Runs.first_scale dpi0).
  - by rewrite H1, oversized_test, Hsmall.
  - rewrite H0, oversized_test, Hbig.
    fold (Pipeline.reduced_scale dpi0 pix0). by rewrite H1.
Qed.

(** The [try] block has a raster, or one of its requests raised. *)
Lemma rasterise_requests env dpi0 pg safe :
  (exists pix, Pipeline.raster env dpi0 pg pix) \/
  (rasterise env dpi0 pg safe = None /\ Pipeline.fails env dpi0 pg safe).
Proof.
  destruct (get_pixmap env pg (Runs.first_scale dpi0)) as [pix0|] eqn:H0.
  2:{ right. split; [|by apply Pipeline.request_raises].
      unfold rasterise. fold (Runs.first_scale dpi0). by rewrite H0. }
  destruct (Pipeline.oversized pix0) eqn:Hbig.
  2:{ left. exists pix0. by apply Pipeline.raster_first. }
  destruct (get_pixmap env pg (Pipeline.reduced_scale dpi0 pix0)) as [pix|] eqn:H1.
  { left. exists pix. by eapply Pipeline.raster_second. }
  right. split; [|by eapply Pipeline.second_request_raises].
  unfold rasterise. fold (Runs.first_scale dpi0).
  rewrite H0, oversized_test, Hbig. fold (Pipeline.reduced_scale dpi0 pix0).
  by rewrite H1.
Qed.

Lemma raster_unique env dpi0 pg pix pix' :
  Pipeline.raster env dpi0 pg pix -> Pipeline.raster env dpi0 pg pix' -> pix = pix'.
Proof.
  intros [p1 H1 Hs1 | p0 p1 H0 Hb0 H1] [q1 G1 Gs1 | q0 q1 G0 Gb0 G1]; congruence.
Qed.

(** The [try] block fails exactly when the pipeline of the specification
    fails, and otherwise gives the image the pipeline produces. *)
Lemma rasterise_spec env dpi0 pg safe :
  match rasterise env dpi0 pg safe with
  | None => Pipeline.fails env dpi0 pg safe
  | Some img => Pipeline.produces env dpi0 pg safe img
  end.
Proof.
  destruct (rasterise_requests env dpi0 pg safe) as [[pix Hpix] | [-> Hf]]; [|done].
  rewrite (rasterise_of_raster _ _ _ _ _ Hpix).
  assert (Hpng : forall (Hrt : Pipeline.round_trip safe pix),
            match png_image env pix with
            | None => Pipeline.fails env dpi0 pg safe
            | Some img => Pipeline.produces env dpi0 pg safe img
            end).
  { intros Hrt. unfold png_image.
    destruct (tobytes_png env pix) as [data|] eqn:Hdata.
    - destruct (fromData_raises env data) eqn:Hdec.
      + by eapply Pipeline.decode_raises.
      + by eapply Pipeline.produces_decoded.
    - by eapply Pipeline.encode_raises. }
  destruct safe; [apply Hpng; by left|].
  destruct (format_of (pix_n pix)) as [fmt|] eqn:Hfmt.
  - apply format_of_channels in Hfmt.
    destruct (fromSamples_raises env pix) eqn:Hraw.
    + by eapply Pipeline.raw_buffer_raises.
    + by eapply Pipeline.produces_raw.
  - apply Hpng. right. by apply format_of_None.
Qed.

Lemma rasterise_fails env dpi0 pg safe :
  Pipeline.fails env dpi0 pg safe -> rasterise env dpi0 pg safe = None.
Proof.
  intros Hf.
  destruct (rasterise_requests env dpi0 pg safe) as [[pix Hpix] | [-> _]]; [|done].
  rewrite (rasterise_of_raster _ _ _ _ _ Hpix).
  assert (Hpng : tobytes_png env pix = None \/
                 (exists data, tobytes_png env pix = Some data /\
                               fromData_raises env data = true) ->
                 png_image env pix = None).
  { intros [Hn | (data & Hd & Hr)]; unfold png_image; [by rewrite Hn|].
    by rewrite Hd, Hr. }
  destruct Hf as [H0 | pix0 H0 Hb H1 | pix' Hr Hrt Hn | pix' data Hr Hrt Hd Hx
                  | pix' fmt Hr Hs Hc Hx].
  - inversion Hpix; congruence.
  - inversion Hpix; congruence.
  - rewrite <- (raster_unique _ _ _ _ _ Hpix Hr) in *.
    destruct Hrt as [-> | Hno]; [apply Hpng; by left|].
    apply format_of_None in Hno. rewrite Hno.
    destruct safe; apply Hpng; by left.
  - rewrite <- (raster_unique _ _ _ _ _ Hpix Hr) in *.
    destruct Hrt as [-> | Hno]; [apply Hpng; right; eauto|].
    apply format_of_None in Hno. rewrite Hno.
    destruct safe; apply Hpng; right; eauto.
  - rewrite <- (raster_unique _ _ _ _ _ Hpix Hr) in *. subst safe.
    apply format_of_channels in Hc. by rewrite Hc, Hx.
Qed.

Lemma rasterise_produces env dpi0 pg safe img :
  Pipeline.produces env dpi0 pg safe img -> rasterise env dpi0 pg safe = Some img.
Proof.
  intros [pix data Hr Hrt Hd Hx | pix fmt Hr Hs Hc Hx];
    rewrite (rasterise_of_raster _ _ _ _ _ Hr).
  - assert (Hpng : png_image env pix = Some (FromData data)).
    { unfold png_image. by rewrite Hd, Hx. }
    destruct Hrt as [-> | Hno]; [done|].
    apply format_of_None in Hno. rewrite Hno. by destruct safe.
  - subst safe. apply format_of_channels in Hc. by rewrite Hc, Hx.
Qed.

(** C6, as amended. Without an open document, or for a page index
    outside [0, page_count), [render_page] returns [None], raises nothing
    and changes nothing. For a page index in range on an open document it
    returns the cached image when the key is cached; and when
    [self.doc[pno]], which stands before the [try], loads the page, it
    does not raise either: it returns an image, and when the page is not
    cached and a call of the rasterisation pipeline fails (a request for
    the raster, the encoding, the decoding, the raw-buffer image) that
    image is the placeholder: 320 by 200, with the text "Render failed p"
    followed by the page's 1-based number. *)
Theorem render_raises_only_before_try env m pno safe :
  doc_ok m ->
  (doc m = None \/ pno < 0 \/ Z.of_nat (page_count m) <= pno ->
   render_page env m pno safe = (Returned None, m)) /\
  (forall pages,
      doc m = Some pages -> 0 <= pno < Z.of_nat (page_count m) ->
      (forall img,
          od_get (pno, dpi m, if safe then 1 else 0) (d (page_pix_cache m)) = Some img ->
          (render_page env m pno safe).1 = Returned (Some img)) /\
      (load_page_raises env pno = false ->
       exists pg img,
         pages !! Z.to_nat pno = Some pg /\
         (render_page env m pno safe).1 = Returned (Some img) /\
         (od_get (pno, dpi m, if safe then 1 else 0) (d (page_pix_cache m)) = None ->
          Pipeline.fails env (dpi m) pg safe ->
          render_page env m pno safe =
            (Returned (Some (Tile 320 200 Format_RGB888 (40, 40, 40) (255, 200, 0)
                                  10 100
                                  (lit "Render failed p" ++ str_of_Z (pno + 1)))),
             m)))).
Proof.
  intros Hdoc. unfold render_page.
  destruct (doc m) as [pages|] eqn:Hpages.
  2:{ split; [done|]. intros pages' [=]. }
  destruct ((pno <? 0) || (pno >=? Z.of_nat (page_count m))) eqn:Hrange.
  { split; [done|]. intros pages' _ Hin. apply in_range_test in Hin. congruence. }
  apply in_range_test in Hrange. split.
  { intros [?|?]; [done | lia]. }
  intros pages' [= <-] _.
  destruct (index_in_range pages pno) as (pg & Hidx & Hlk).
  { by rewrite <- (Hdoc pages Hpages). }
  change (_page_key m pno safe) with (pno, dpi m, if safe then 1 else 0).
  set (key := (pno, dpi m, if safe then 1 else 0)).
  split.
  - intros img Hhit. unfold get. by rewrite Hhit.
  - intros Hload. rewrite Hload, Hidx. exists pg.
    destruct (od_get key (d (page_pix_cache m))) as [img0|] eqn:Hget.
    + unfold get. rewrite Hget. exists img0. split_and!; done.
    + rewrite get_miss by done. rewrite with_cache_same.
      destruct (rasterise env (dpi m) pg safe) as [img|] eqn:Hras.
      * destruct (put (page_pix_cache m) key img) as [[[]|] c2];
          eexists; (split_and!; [done | reflexivity |]);
          intros _ Hf; apply rasterise_fails in Hf; congruence.
      * eexists. split_and!; [done | reflexivity | done].
Qed.

(** C7. For a page in range of an open document, an image that
    [render_page] returns and that is not the placeholder is in the cache
    under the key (page index, resolution, decode path), as its most
    recent entry. The placeholder is returned only when a call of the
    pipeline failed, and then nothing was stored: the model is unchanged
    and the key is still absent, so the next call for the same key, once
    the page is loaded, runs the pipeline again: it returns the
    placeholder if the pipeline fails again, and otherwise the image the
    pipeline produces, which it stores under the key. *)
Theorem success_cached_failure_retried env m pno safe pages img m' :
  model_ok m -> doc m = Some pages -> 0 <= pno < Z.of_nat (page_count m) ->
  render_page env m pno safe = (Returned (Some img), m') ->
  model_ok m' /\
  if is_tile img then
    img = Pipeline.placeholder pno /\
    m' = m /\
    od_get (pno, dpi m, if safe then 1 else 0) (d (page_pix_cache m')) = None /\
    exists pg,
      pages !! Z.to_nat pno = Some pg /\
      Pipeline.fails env (dpi m) pg safe /\
      forall env2,
        load_page_raises env2 pno = false ->
        (Pipeline.fails env2 (dpi m) pg safe ->
         render_page env2 m' pno safe
           = (Returned (Some (Pipeline.placeholder pno)), m')) /\
        (forall img2,
            Pipeline.produces env2 (dpi m) pg safe img2 ->
            exists m2,
              render_page env2 m' pno safe = (Returned (Some img2), m2) /\
              od_get (pno, dpi m, if safe then 1 else 0) (d (page_pix_cache m2))
                = Some img2)
  else
    od_get (pno, dpi m, if safe then 1 else 0) (d (page_pix_cache m')) = Some img /\
    last (d (page_pix_cache m')) = Some ((pno, dpi m, if safe then 1 else 0), img).
Proof.
  intros Hok Hpages Hrange.
  destruct (render_page_in_range env m pno safe pages Hok Hpages Hrange)
    as (pg & Hlk & Hrender).
  cbn zeta in Hrender. rewrite Hrender.
  pose proof Hok as [Hdoc Hc]. pose proof Hc as (Hmx & Hwf & Hlen & Hno).
  change (_page_key m pno safe) with (pno, dpi m, if safe then 1 else 0) in *.
  set (key := (pno, dpi m, if safe then 1 else 0)) in *.
  destruct (od_get key (d (page_pix_cache m))) as [img0|] eqn:Hget.
  - intros [= <- <-].
    assert (Himg : is_tile img0 = false).
    { apply (Hno key). by apply od_get_Some_elem. }
    destruct (cache_ok_snoc (page_pix_cache m) key img0 Hc Himg) as (Hc' & Hg' & Hl').
    assert (Hfit : (length (od_pop key (d (page_pix_cache m)) ++ [(key, img0)])
                    <= Z.to_nat (max (page_pix_cache m)))%nat).
    { rewrite length_app. simpl. pose proof (od_pop_length_hit key img0 _ Hget). lia. }
    rewrite (lastn_all _ _ Hfit) in Hc', Hg', Hl'.
    split; [by split|]. rewrite Himg. done.
  - destruct (load_page_raises env pno); [done|].
    pose proof (rasterise_spec env (dpi m) pg safe) as Hspec.
    destruct (rasterise env (dpi m) pg safe) as [img1|] eqn:Hras.
    + intros [= <- <-].
      pose proof (rasterise_genuine _ _ _ _ _ Hras) as Himg.
      destruct (cache_ok_snoc (page_pix_cache m) key img1 Hc Himg) as (Hc' & Hg' & Hl').
      split; [by split|]. rewrite Himg. done.
    + intros [= <- <-]. split; [done|]. cbn [is_tile failure_tile].
      split_and!; [done..|]. exists pg. split_and!; [done..|].
      intros env2 Hload2.
      destruct (render_page_in_range env2 m pno safe pages Hok Hpages Hrange)
        as (pg' & Hlk' & Hrender').
      assert (pg' = pg) by congruence. subst pg'.
      cbn zeta in Hrender'.
      change (_page_key m pno safe) with key in Hrender'.
      rewrite Hget, Hload2 in Hrender'. split.
      * intros Hf. apply rasterise_fails in Hf. by rewrite Hrender', Hf.
      * intros img2 Hp. apply rasterise_produces in Hp. rewrite Hrender', Hp.
        pose proof (rasterise_genuine _ _ _ _ _ Hp) as Himg2.
        destruct (cache_ok_snoc (page_pix_cache m) key img2 Hc Himg2)
          as (_ & Hg2 & _).
        eexists. split; [reflexivity|]. exact Hg2.
Qed.

End RenderFacts.

(** The claim of C6 as stated fails: on an opened one-page document, for
    page 0, [render_page] raises when the decoder raises while the page
    is loaded. *)
Lemma render_raises_on_page_load_counterexample :
  let m := Sample.opened DocModel.simple [Sample.page_a] in
  DocModel.doc m = Some [Sample.page_a] /\
  0 <= 0 < Z.of_nat (DocModel.page_count m) /\
  DocModel.render_page Sample.unloadable m 0 true = (Raised, m).
Proof.
  cbn zeta. split; [reflexivity|]. split; [by vm_compute|]. reflexivity.
Qed.

(** An opened one-page document with a decoder that loads the page and
    then fails: the page is in range, so the call returns the
    placeholder. *)
Lemma render_raises_only_before_try_witness :
  let m := Sample.opened DocModel.simple [Sample.page_a] in
  (DocModel.doc m = None \/ 0 < 0 \/ Z.of_nat (DocModel.page_count m) <= 0 ->
   DocModel.render_page Sample.failing m 0 true = (Returned None, m)) /\
  (forall pages,
      DocModel.doc m = Some pages -> 0 <= 0 < Z.of_nat (DocModel.page_count m) ->
      (forall img,
          LRUCache.od_get (0, DocModel.dpi m, if true then 1 else 0)
                          (LRUCache.d (DocModel.page_pix_cache m)) = Some img ->
          (DocModel.render_page Sample.failing m 0 true).1 = Returned (Some img)) /\
      (load_page_raises Sample.failing 0 = false ->
       exists pg img,
         pages !! Z.to_nat 0 = Some pg /\
         (DocModel.render_page Sample.failing m 0 true).1 = Returned (Some img) /\
         (LRUCache.od_get (0, DocModel.dpi m, if true then 1 else 0)
                          (LRUCache.d (DocModel.page_pix_cache m)) = None ->
          Pipeline.fails Sample.failing (DocModel.dpi m) pg true ->
          DocModel.render_page Sample.failing m 0 true =
            (Returned (Some (Tile 320 200 Format_RGB888 (40, 40, 40) (255, 200, 0)
                                  10 100
                                  (lit "Render failed p" ++ str_of_Z (0 + 1)))),
             m)))).
Proof.
  apply (RenderFacts.render_raises_only_before_try Sample.failing
           (Sample.opened DocModel.simple [Sample.page_a]) 0 true).
  intros pages H. vm_compute in H. injection H as <-. reflexivity.
Defined.

(** The same document. With a decoder that fails the placeholder comes
    back and the cache is left alone, so that a later call asks the
    decoder again; with a decoder that works the image comes back and is
    the newest cache entry under (0, 110, 1). *)
Lemma success_cached_failure_retried_witness :
  let m := Sample.opened DocModel.simple [Sample.page_a] in
  (Invariant.model_ok m /\
   Pipeline.placeholder 0 = Pipeline.placeholder 0 /\
   m = m /\
   LRUCache.od_get (0, DocModel.dpi m, if true then 1 else 0)
                   (LRUCache.d (DocModel.page_pix_cache m)) = None /\
   exists pg,
     [Sample.page_a] !! Z.to_nat 0 = Some pg /\
     Pipeline.fails Sample.failing (DocModel.dpi m) pg true /\
     forall env2,
       load_page_raises env2 0 = false ->
       (Pipeline.fails env2 (DocModel.dpi m) pg true ->
        DocModel.render_page env2 m 0 true
          = (Returned (Some (Pipeline.placeholder 0)), m)) /\
       (forall img2,
           Pipeline.produces env2 (DocModel.dpi m) pg true img2 ->
           exists m2,
             DocModel.render_page env2 m 0 true = (Returned (Some img2), m2) /\
             LRUCache.od_get (0, DocModel.dpi m, if true then 1 else 0)
                             (LRUCache.d (DocModel.page_pix_cache m2))
               = Some img2)) /\
  (let m' := (DocModel.render_page Sample.working m 0 true).2 in
   Invariant.model_ok m' /\
   LRUCache.od_get (0, DocModel.dpi m, if true then 1 else 0)
                   (LRUCache.d (DocModel.page_pix_cache m'))
     = Some (FromData [0; 0; 0; 0]%N) /\
   last (LRUCache.d (DocModel.page_pix_cache m'))
     = Some ((0, DocModel.dpi m, if true then 1 else 0), FromData [0; 0; 0; 0]%N)).
Proof.
  cbn zeta.
  assert (Hok : Invariant.model_ok (Sample.opened DocModel.simple [Sample.page_a])).
  { apply (RenderFacts.open_ok [Sample.page_a] (DocModel.init 110 DocModel.simple false)).
    - apply RenderFacts.init_ok.
    - unfold Sample.opened. by rewrite ExtractionFacts.open_spec. }
  assert (Hdoc : DocModel.doc (Sample.opened DocModel.simple [Sample.page_a])
                 = Some [Sample.page_a]) by reflexivity.
  assert (Hrange : 0 <= 0 < Z.of_nat (DocModel.page_count
                                        (Sample.opened DocModel.simple [Sample.page_a])))
    by (by vm_compute).
  split.
  - exact (RenderFacts.success_cached_failure_retried Sample.failing
             (Sample.opened DocModel.simple [Sample.page_a]) 0 true [Sample.page_a]
             (Pipeline.placeholder 0)
             (Sample.opened DocModel.simple [Sample.page_a])
             Hok Hdoc Hrange eq_refl).
  - exact (RenderFacts.success_cached_failure_retried Sample.working
             (Sample.opened DocModel.simple [Sample.page_a]) 0 true [Sample.page_a]
             (FromData [0; 0; 0; 0]%N)
             (DocModel.render_page Sample.working
                (Sample.opened DocModel.simple [Sample.page_a]) 0 true).2
             Hok Hdoc Hrange eq_refl).
Defined.

(** ** The scheduler and [render_visible_lite] *)

Module PassFacts.
Import DocModel PdfView Pass.
Local Open Scope nat_scope.

(** [render_page] touches nothing but the cache. *)
Lemma render_page_frame env m pno safe :
  exists c, (render_page env m pno safe).2 = with_cache m c.
Proof.
  unfold render_page.
  destruct (doc m) as [pages|]; [|exists (page_pix_cache m); by destruct m].
  destruct ((pno <? 0)%Z || (pno >=? Z.of_nat (page_count m))%Z);
    [exists (page_pix_cache m); by destruct m|].
  destruct (LRUCache.get _ _) as [[img|] c1]; [by exists c1|].
  destruct (if load_page_raises env pno then None else index pages pno);
    [|by exists c1].
  destruct (rasterise _ _ _ _); [|by exists c1].
  destruct (LRUCache.put _ _ _) as [[[]|] c2]; by exists c2.
Qed.

(** [render_single_page_raw] leaves the page items and the scheduler
    alone, and the model keeps its page count. *)
Lemma render_single_page_raw_frame env v pno :
  let v1 := (render_single_page_raw env v pno).2 in
  page_items v1 = page_items v /\
  timer_active v1 = timer_active v /\
  timer_interval v1 = timer_interval v /\
  _all_idx v1 = _all_idx v /\
  _all_active v1 = _all_active v /\
  (forall m, model v = Some m ->
     exists m1, model v1 = Some m1 /\ page_count m1 = page_count m).
Proof.
  unfold render_single_page_raw. destruct (model v) as [m|] eqn:Hm; cbn zeta.
  - destruct (render_page_frame env m pno (safe_png v)) as [c Hc].
    destruct (render_page env m pno (safe_png v)) as [[r|] m'];
      cbn [snd] in Hc |- *; subst m'; split_and!; try done;
      intros m0 [= <-]; by eexists.
  - split_and!; done.
Qed.

Lemma events_from_pages a items :
  event_page <$> events_from a items = seq a (length items).
Proof.
  revert a. induction items as [|item r IH]; intros a; simpl; [done|].
  rewrite IH. f_equal. unfold page_event. by destruct (original_img item).
Qed.

(** While the cursor is short of the page count, each tick handles the
    page under the cursor and moves the cursor on by one. *)
Lemma ticks_running envs : forall v m,
  model v = Some m -> length (page_items v) = page_count m ->
  timer_active v = true ->
  _all_idx v + length envs ≤ page_count m ->
  exists v1 m1,
    ticks envs v
      = (Returned (events_from (_all_idx v)
                     (take (length envs) (drop (_all_idx v) (page_items v)))), v1) /\
    model v1 = Some m1 /\ page_count m1 = page_count m /\
    length (page_items v1) = length (page_items v) /\
    _all_idx v1 = _all_idx v + length envs /\
    timer_active v1 = true /\ _all_active v1 = _all_active v.
Proof.
  induction envs as [|env envs IH]; intros v m Hm Hlen Htimer Hidx.
  { exists v, m. simpl. rewrite Nat.add_0_r. done. }
  cbn [length] in Hidx. cbn [ticks]. unfold tick. rewrite Htimer.
  unfold _render_all_step. rewrite Hm.
  destruct (Nat.leb_spec (page_count m) (_all_idx v)) as [?|Hlt]; [lia|].
  destruct (lookup_lt_is_Some_2 (page_items v) (_all_idx v)) as [item Hitem]; [lia|].
  rewrite Hitem.
  assert (Hev : events_from (_all_idx v)
                  (take (length (env :: envs)) (drop (_all_idx v) (page_items v)))
                = page_event (_all_idx v) item
                  :: events_from (S (_all_idx v))
                       (take (length envs) (drop (S (_all_idx v)) (page_items v)))).
  { rewrite (drop_S _ _ _ Hitem). done. }
  rewrite Hev. unfold page_event at 1.
  destruct (original_img item) as [img0|] eqn:Himg0.
  - set (v' := with_scheduler v _ _ _ _).
    destruct (IH v' m) as (v1 & m1 & Ht & Hm1 & Hpc & Hl1 & Hi1 & Hta & Haa);
      [done | done | done | simpl; lia |].
    subst v'. cbn [with_scheduler _all_idx page_items _all_active] in Ht, Hl1, Hi1, Haa.
    rewrite Ht. exists v1, m1. split_and!; try done. cbn [length]. lia.
  - pose proof (render_single_page_raw_frame env v (Z.of_nat (_all_idx v)))
      as (Hitems & Hta0 & Hti0 & Hidx0 & Haa0 & Hmodel).
    destruct (render_single_page_raw env v (Z.of_nat (_all_idx v))) as [img va].
    cbn [snd] in Hitems, Hta0, Hti0, Hidx0, Haa0, Hmodel.
    destruct (Hmodel m Hm) as (ma & Hma & Hpca).
    set (vb := match img with Some _ => set_img (_all_idx v) img va | None => va end).
    assert (Hvb : model vb = Some ma /\ timer_active vb = true /\
                  _all_idx vb = _all_idx v /\ _all_active vb = _all_active v /\
                  length (page_items vb) = length (page_items v) /\
                  drop (S (_all_idx v)) (page_items vb)
                  = drop (S (_all_idx v)) (page_items v)).
    { subst vb. destruct img; cbn [set_img with_items model timer_active _all_idx
                                   _all_active page_items];
        rewrite ?length_insert, ?drop_insert_lt by lia;
        rewrite Hitems; split_and!; congruence. }
    destruct Hvb as (Hmb & Htb & Hib & Hab & Hlb & Hdb).
    set (v' := with_scheduler vb _ _ _ _).
    destruct (IH v' ma) as (v1 & m1 & Ht & Hm1 & Hpc & Hl1 & Hi1 & Hta & Haa).
    { done. }
    { subst v'. cbn [with_scheduler page_items]. lia. }
    { done. }
    { subst v'. cbn [with_scheduler _all_idx]. lia. }
    subst v'. cbn [with_scheduler _all_idx page_items _all_active] in Ht, Hl1, Hi1, Haa.
    rewrite Ht, Hib, Hdb.
    exists v1, m1. split_and!; try done; try congruence; cbn [length]; lia.
Qed.

(** [set_model] with a model gives the view one empty item per page. *)
Lemma set_model_items m v :
  model (set_model (Some m) v) = Some m /\
  length (page_items (set_model (Some m) v)) = page_count m /\
  timer_active (set_model (Some m) v) = false /\
  Forall (fun item => original_img item = None) (page_items (set_model (Some m) v)).
Proof.
  unfold set_model. cbn [with_items with_model model page_items timer_active].
  split_and!.
  - done.
  - by rewrite length_map, length_seq.
  - by destruct (timer_active v) eqn:E.
  - apply Forall_forall. intros item Hin.
    apply list_elem_of_fmap in Hin as (i & -> & _). done.
Qed.

(** C3, as amended. After [render_all_pages] on a view of a document with
    [P] pages the scheduler is Running. [P] timer ticks handle the pages
    0, ..., [P - 1] once each, in order: a page without an image gets one
    call of the renderer, a page with an image is passed, and the cursor
    moves on by one per tick whatever the renderer returned. After these
    [P] ticks the cursor is [P] and the scheduler is still Running; the
    next tick, the [P + 1]-th, stops the timer, clears the active flag and
    renders nothing. *)
Theorem render_all_drains envs v m :
  model v = Some m -> length (page_items v) = page_count m ->
  _all_active v = false -> length envs = page_count m ->
  running (render_all_pages v) = true /\
  exists es v1,
    ticks envs (render_all_pages v) = (Returned es, v1) /\
    es = events_from 0 (page_items v) /\
    event_page <$> es = seq 0 (page_count m) /\
    _all_idx v1 = page_count m /\
    running v1 = true /\
    forall env, exists v2, tick env v1 = (Returned [], v2) /\ idle v2 = true.
Proof.
  intros Hm Hlen Hidle Henvs.
  assert (Hstart : render_all_pages v = with_scheduler v true (render_delay_ms v) 0 true).
  { unfold render_all_pages. by rewrite Hm, Hidle. }
  rewrite Hstart. split; [done|].
  destruct (ticks_running envs (with_scheduler v true (render_delay_ms v) 0 true) m)
    as (v1 & m1 & Ht & Hm1 & Hpc & Hl1 & Hi1 & Hta & Haa); [done | done | done | simpl; lia |].
  cbn [with_scheduler _all_idx page_items _all_active] in Ht, Hl1, Hi1, Haa.
  rewrite drop_0, Henvs, <- Hlen, firstn_all in Ht.
  eexists _, v1. split_and!; [exact Ht | done | | lia | |].
  - by rewrite events_from_pages, Hlen.
  - unfold running. by rewrite Hta, Haa.
  - intros env. unfold tick, _render_all_step. rewrite Hta, Hm1.
    destruct (Nat.leb_spec (page_count m1) (_all_idx v1)) as [_|?]; [|lia].
    eexists. split; [reflexivity|]. done.
Qed.

Lemma index_nat {A} (l : list A) (pno : Z) :
  (0 <= pno < Z.of_nat (length l))%Z ->
  position l pno = Some (Z.to_nat pno) /\ index l pno = l !! Z.to_nat pno.
Proof.
  intros Hp. unfold index, position.
  destruct (Z.ltb_spec pno 0); [lia|].
  destruct (Z.ltb_spec pno (Z.of_nat (length l))); [done | lia].
Qed.

(** [mapTo] does not return for a widget that is not in the chain. *)
Lemma mapTo_not_above chain parent : forall y,
  Forall (fun wy => same_widget wy.1 parent = false) chain ->
  mapTo chain parent y = None.
Proof.
  induction chain as [|[w wy] up IH]; intros y Hall; [done|].
  apply Forall_cons in Hall as [Hw Hup]. cbn [mapTo]. cbn [fst] in Hw.
  rewrite Hw. by apply IH.
Qed.

(** The container is below the viewport, not above it. *)
Lemma mapTo_container g y : mapTo (upwards g) W_container y = None.
Proof.
  apply mapTo_not_above. unfold upwards.
  apply Forall_cons. split; [done|]. apply Forall_cons. split; [done|].
  apply Forall_forall. intros [w wy] Hin.
  apply elem_of_lookup_imap in Hin as (n & y0 & [= -> ->] & _). done.
Qed.

(** C10 (a defect of the code). [render_visible_lite] never reaches its
    loop on a view that has page items: [_visible_range] asks for
    [viewport().mapTo(self.container, ...)], the container is a child of
    the viewport and not one of its parents, and the call does not
    return. So with a model and page items, whatever [count] is and
    whatever the items hold, [render_visible_lite] does not return, and
    no page is rendered. It returns only without a model or without page
    items, and then it has done nothing. *)
Theorem render_visible_ends_in_visible_range env g count v m :
  model v = Some m -> page_items v <> [] ->
  _visible_range g v = None /\
  render_visible_lite env g count v = None /\
  (forall v0, model v0 = None \/ page_items v0 = [] ->
              render_visible_lite env g count v0 = Some (Returned [], v0)).
Proof.
  intros Hm Hitems.
  assert (Hr : _visible_range g v = None).
  { unfold _visible_range. destruct (page_items v); [done|].
    by rewrite mapTo_container. }
  split; [exact Hr|]. split.
  - unfold render_visible_lite. by rewrite Hm, Hr.
  - intros v0 [Hm0 | Hi0]; unfold render_visible_lite.
    + by rewrite Hm0.
    + destruct (model v0); [|done]. unfold _visible_range. by rewrite Hi0.
Qed.

End PassFacts.

(** The claim of C3 as stated fails: one page, one tick, and the
    scheduler is still Running with the cursor at 1. *)
Lemma drains_after_page_count_ticks_counterexample :
  let v := Sample.view_of [Sample.page_a] in
  exists es v1,
    length [Sample.working] = length (PdfView.page_items v) /\
    PdfView.ticks [Sample.working] (PdfView.render_all_pages v) = (Returned es, v1) /\
    Pass.idle v1 = false /\ Pass.running v1 = true.
Proof.
  cbn zeta. do 2 eexists. split; [reflexivity|]. split; [vm_compute; reflexivity|].
  split; reflexivity.
Qed.

(** One page and one tick, then the tick that stops the timer. *)
Lemma render_all_drains_witness :
  let v := Sample.view_of [Sample.page_a] in
  Pass.running (PdfView.render_all_pages v) = true /\
  exists es v1,
    PdfView.ticks [Sample.working] (PdfView.render_all_pages v) = (Returned es, v1) /\
    es = Pass.events_from 0 (PdfView.page_items v) /\
    PdfView.event_page <$> es
      = seq 0 (DocModel.page_count (Sample.opened DocModel.simple [Sample.page_a])) /\
    PdfView._all_idx v1
      = DocModel.page_count (Sample.opened DocModel.simple [Sample.page_a]) /\
    Pass.running v1 = true /\
    forall env, exists v2, PdfView.tick env v1 = (Returned [], v2) /\ Pass.idle v2 = true.
Proof.
  apply (PassFacts.render_all_drains [Sample.working]
           (Sample.view_of [Sample.page_a])
           (Sample.opened DocModel.simple [Sample.page_a]));
    reflexivity.
Defined.

(** A view of an opened one-page document whose page has no image, and
    [count = 2]: the call does not return. *)
Lemma render_visible_ends_in_visible_range_witness :
  let v := Sample.view_of [Sample.page_a] in
  PdfView.page_items v = [ {| PdfView.original_img := None |} ] /\
  PdfView._visible_range Sample.geometry v = None /\
  PdfView.render_visible_lite Sample.working Sample.geometry 2 v = None /\
  (forall v0, PdfView.model v0 = None \/ PdfView.page_items v0 = [] ->
              PdfView.render_visible_lite Sample.working Sample.geometry 2 v0
              = Some (Returned [], v0)).
Proof.
  cbn zeta. split; [reflexivity|].
  apply (PassFacts.render_visible_ends_in_visible_range Sample.working
           Sample.geometry 2 (Sample.view_of [Sample.page_a])
           (Sample.opened DocModel.simple [Sample.page_a])).
  - reflexivity.
  - discriminate.
Defined.

(** * Part III: further properties of the code *)

(** ** More on the cache *)

Module LRUCacheMore.
Import LRUCache LRUCacheFacts.
Local Open Scope nat_scope.
Section More.
Context {K V : Type} `{EqDecision K}.
Implicit Types (l a b : list (K * V)) (k : K) (v : V) (c : LRUCache.t K V).

Lemma od_get_app k a b :
  od_get k (a ++ b) = match od_get k a with Some v => Some v | None => od_get k b end.
Proof.
  induction a as [|[k' v'] r IH]; simpl; [done|].
  by destruct (decide (k = k')).
Qed.

Lemma od_get_pop_ne k k' l : k' ≠ k -> od_get k' (od_pop k l) = od_get k' l.
Proof.
  intros Hne. induction l as [|[k0 v0] r IH]; simpl; [done|].
  destruct (decide (k = k0)) as [->|Hk].
  - by rewrite decide_False.
  - simpl. by rewrite IH.
Qed.

Lemma od_get_snoc_ne k k' v l :
  k' ≠ k -> od_get k' (od_pop k l ++ [(k, v)]) = od_get k' l.
Proof.
  intros Hne. rewrite od_get_app, od_get_pop_ne by done.
  destruct (od_get k' l); [done|]. simpl. by rewrite decide_False.
Qed.

Lemma od_get_snoc_eq k v l :
  NoDup l.*1 -> od_get k (od_pop k l ++ [(k, v)]) = Some v.
Proof.
  intros Hnd. rewrite od_get_app.
  rewrite (proj2 (od_get_None k (od_pop k l))) by (by apply od_pop_gone).
  simpl. by rewrite decide_True.
Qed.

Lemma od_pop_last_id k v l :
  NoDup l.*1 -> last l = Some (k, v) -> od_pop k l ++ [(k, v)] = l.
Proof.
  intros Hnd Hlast. apply last_Some in Hlast as [x ->].
  rewrite fmap_app in Hnd. apply NoDup_app in Hnd as (_ & Hdisj & _).
  rewrite od_pop_app_r.
  - simpl. rewrite decide_True by done. by rewrite app_nil_r.
  - intros Hin. apply (Hdisj k Hin). simpl. apply list_elem_of_here.
Qed.

Lemma evict_negative (mx : Z) l : (mx < 0)%Z -> evict mx l = (Raised, []).
Proof.
  intros Hmx. induction l as [|x r IH]; cbn [evict]; rewrite Z.gtb_ltb.
  - destruct (Z.ltb_spec mx (Z.of_nat (@length (K * V) []))) as [E|E];
      simpl in E; [done | lia].
  - destruct (Z.ltb_spec mx (Z.of_nat (length (x :: r)))) as [E|E];
      cbn [length] in E; [exact IH | lia].
Qed.

(** X1. In a cache of capacity at least 1 with unique keys, [put(k, v)]
    returns and leaves [(k, v)] as the newest entry; a [get(k)] right
    after it returns [v] and leaves the cache exactly as it was. *)
Theorem put_then_get c k v :
  wf c -> (1 <= max c)%Z ->
  exists c', put c k v = (Returned (), c') /\
             last (d c') = Some (k, v) /\
             get c' k = (Some v, c').
Proof.
  intros Hwf Hmx. rewrite put_spec by (done || lia). eexists. split; [reflexivity|].
  cbn [d]. set (l := lastn _ _).
  assert (Hlast : last l = Some (k, v)).
  { subst l. rewrite lastn_app. rewrite (lastn_all _ [(k, v)]) by (simpl; lia).
    apply last_snoc. }
  assert (Hnd : NoDup l.*1).
  { subst l. eapply sublist_NoDup; [|apply fmap_sublist, lastn_sublist].
    by apply keys_snoc_NoDup. }
  split; [done|].
  assert (Hget : od_get k l = Some v).
  { apply od_get_elem; [done|]. apply last_Some in Hlast as [x ->].
    apply elem_of_app. right. apply list_elem_of_here. }
  rewrite (get_hit _ k v) by done. cbn [d max].
  by rewrite (od_pop_last_id k v l).
Qed.

(** X2. [put] under a key the cache already holds replaces its value,
    makes it the newest entry, evicts nothing and keeps the number of
    entries; every other key keeps its value. *)
Theorem put_existing_replaces c k v v0 :
  wf c -> (Z.of_nat (length (d c)) <= max c)%Z -> od_get k (d c) = Some v0 ->
  put c k v = (Returned (), mk (max c) (od_pop k (d c) ++ [(k, v)])) /\
  length (od_pop k (d c) ++ [(k, v)]) = length (d c) /\
  forall k', k' ≠ k -> od_get k' (od_pop k (d c) ++ [(k, v)]) = od_get k' (d c).
Proof.
  intros Hwf Hlen Hget.
  pose proof (od_pop_length_hit k v0 (d c) Hget) as Hpop.
  assert (Hl : length (od_pop k (d c) ++ [(k, v)]) = length (d c)).
  { rewrite length_app. simpl. lia. }
  split_and!; [|done|].
  - rewrite put_spec by (done || lia). by rewrite lastn_all by lia.
  - intros k' Hne. by apply od_get_snoc_ne.
Qed.

(** X3. [put] under a new key appends the entry; when the cache was full
    it evicts exactly the oldest entry, and otherwise nothing: the
    dictionary afterwards is the old one, without its first entry when it
    was full, followed by the new entry. *)
Theorem put_new_evicts_oldest c k v :
  wf c -> (1 <= max c)%Z -> (Z.of_nat (length (d c)) <= max c)%Z ->
  od_get k (d c) = None ->
  put c k v =
    (Returned (),
     mk (max c) (if decide (Z.of_nat (length (d c)) = max c)
                 then tail (d c) ++ [(k, v)]
                 else d c ++ [(k, v)])).
Proof.
  intros Hwf Hmx Hlen Hget. rewrite put_spec by (done || lia).
  rewrite od_pop_notin by (by apply od_get_None). do 2 f_equal.
  destruct (decide (Z.of_nat (length (d c)) = max c)) as [Hfull|Hroom].
  - destruct (d c) as [|x r]; [simpl in Hfull; lia|].
    unfold lastn. rewrite length_app. cbn [length tail] in *.
    replace (S (length r) + 1 - Z.to_nat (max c)) with 1 by lia. done.
  - apply lastn_all. rewrite length_app. simpl. lia.
Qed.

(** X4. With a negative capacity every [put] raises ([popitem] on the
    dictionary the loop has emptied) and leaves the cache empty. *)
Theorem put_negative_capacity_raises c k v :
  (max c < 0)%Z -> put c k v = (Raised, mk (max c) []).
Proof.
  intros Hmx. unfold put. by rewrite evict_negative.
Qed.

(** X5. [get] changes the order only: it returns what the cache maps the
    key to, and afterwards every key is mapped as before, with as many
    entries and unique keys. *)
Theorem get_keeps_mapping c k :
  wf c ->
  (get c k).1 = od_get k (d c) /\
  wf (get c k).2 /\
  length (d (get c k).2) = length (d c) /\
  max (get c k).2 = max c /\
  forall k', od_get k' (d (get c k).2) = od_get k' (d c).
Proof.
  intros Hwf. split_and!; [|by apply get_wf|by apply get_length|apply get_max|].
  - unfold get. by destruct (od_get k (d c)).
  - intros k'. destruct (od_get k (d c)) as [v|] eqn:Hget.
    + rewrite (get_hit _ _ v) by done. cbn [snd d].
      destruct (decide (k' = k)) as [->|Hne].
      * by rewrite od_get_snoc_eq.
      * by apply od_get_snoc_ne.
    + by rewrite get_miss.
Qed.

End More.

Lemma put_then_get_witness :
  exists c', put (mk 1 [(1, 10)]) 2 20 = (Returned (), c') /\
             last (d c') = Some (2, 20) /\
             get c' 2 = (Some 20, c').
Proof.
  apply (put_then_get (mk 1 [(1, 10)]) 2 20); [unfold wf; by_compute | simpl; lia].
Defined.

Lemma put_existing_replaces_witness :
  put (mk 2 [(1, 10); (2, 20)]) 1 11
    = (Returned (), mk 2 (od_pop 1 [(1, 10); (2, 20)] ++ [(1, 11)])) /\
  length (od_pop 1 [(1, 10); (2, 20)] ++ [(1, 11)]) = length [(1, 10); (2, 20)] /\
  forall k', k' ≠ 1 ->
    od_get k' (od_pop 1 [(1, 10); (2, 20)] ++ [(1, 11)]) = od_get k' [(1, 10); (2, 20)].
Proof.
  apply (put_existing_replaces (mk 2 [(1, 10); (2, 20)]) 1 11 10);
    [unfold wf; by_compute | simpl; lia | reflexivity].
Defined.

Lemma put_new_evicts_oldest_witness :
  put (mk 2 [(1, 10); (2, 20)]) 3 30
    = (Returned (),
       mk 2 (if decide (Z.of_nat (length [(1, 10); (2, 20)]) = 2%Z)
             then tail [(1, 10); (2, 20)] ++ [(3, 30)]
             else [(1, 10); (2, 20)] ++ [(3, 30)])).
Proof.
  apply (put_new_evicts_oldest (mk 2 [(1, 10); (2, 20)]) 3 30);
    [unfold wf; by_compute | simpl; lia | simpl; lia | reflexivity].
Defined.

Lemma put_negative_capacity_raises_witness :
  put (mk (-1) [(1, 10)]) 2 20 = (Raised, mk (-1) []).
Proof.
  apply (put_negative_capacity_raises (mk (-1) [(1, 10)]) 2 20). simpl. lia.
Defined.

Lemma get_keeps_mapping_witness :
  (get (mk 2 [(1, 10); (2, 20)]) 1).1 = od_get 1 [(1, 10); (2, 20)] /\
  wf (get (mk 2 [(1, 10); (2, 20)]) 1).2 /\
  length (d (get (mk 2 [(1, 10); (2, 20)]) 1).2) = length [(1, 10); (2, 20)] /\
  max (get (mk 2 [(1, 10); (2, 20)]) 1).2 = 2%Z /\
  forall k', od_get k' (d (get (mk 2 [(1, 10); (2, 20)]) 1).2)
             = od_get k' [(1, 10); (2, 20)].
Proof.
  apply (get_keeps_mapping (mk 2 [(1, 10); (2, 20)]) 1). unfold wf. by_compute.
Defined.

End LRUCacheMore.

(** ** More on extraction *)

Module ExtractionMore.
Import DocModel Contribution ExtractionFacts Text.
Local Open Scope nat_scope.

Lemma ends_nl_app a b : ends_nl a -> ends_nl b -> ends_nl (a ++ b).
Proof.
  intros Ha [->|[b0 ->]].
  - by rewrite app_nil_r.
  - right. exists (a ++ b0). by rewrite (assoc_L (++)).
Qed.

Lemma ends_nl_nl2 a : ends_nl (a ++ nl2).
Proof. right. exists (a ++ nl). by rewrite <- (assoc_L (++)). Qed.

Lemma ends_nl_concat cs : Forall ends_nl cs -> ends_nl (concat cs).
Proof.
  induction 1 as [|c cs Hc _ IH]; simpl; [by left | by apply ends_nl_app].
Qed.

Lemma text_part_ends pg : ends_nl (text_part pg).
Proof. unfold text_part. destruct (nonempty _); [apply ends_nl_nl2 | by left]. Qed.

Lemma blocks_part_ends hdr ph pno blks : forall fig0,
  ends_nl (blocks_part hdr ph pno blks fig0).
Proof.
  induction blks as [|blk r IH]; intros fig0; cbn [blocks_part]; [by left|].
  destruct (dropped hdr ph blk); [apply IH|].
  destruct (default 0 (blk_type blk) =? 0)%Z.
  - apply ends_nl_app; [|apply IH]. right. by eexists.
  - destruct (block_figure pno blk); [|apply IH].
    rewrite (assoc_L (++)). apply ends_nl_app; [apply ends_nl_nl2 | apply IH].
Qed.

(** Whatever a page contributes ends with a newline. *)
Lemma contribution_ends md hdr fig0 pno pg : ends_nl (contribution md hdr fig0 pno pg).
Proof.
  destruct md; simpl.
  - unfold simple_contribution. apply ends_nl_app; [apply text_part_ends|].
    destruct (nonempty _); [apply ends_nl_nl2 | by left].
  - unfold structured_contribution. apply ends_nl_app; [apply blocks_part_ends|].
    destruct (blocks_wrote _ _ _); [by left | apply text_part_ends].
Qed.

Lemma contributions_from_ends md hdr pgs : forall pno fig0,
  Forall ends_nl (contributions_from md hdr pno fig0 pgs).
Proof.
  induction pgs as [|pg r IH]; intros pno fig0; simpl; [done|].
  apply Forall_cons. split; [apply contribution_ends | apply IH].
Qed.

Lemma rstrip_snoc_space s ch : isspace ch = true -> rstrip (s ++ [ch]) = rstrip s.
Proof.
  intros Hch. induction s as [|c r IH]; simpl; [by rewrite Hch|]. by rewrite IH.
Qed.

Lemma rstrip_length s : length (rstrip s) ≤ length s.
Proof.
  destruct (rstrip_prefix s) as [w Hw]. rewrite Hw at 2. rewrite length_app. lia.
Qed.

(** Trailing whitespace goes, and nothing up to the last other character. *)
Lemma rstrip_keeps x ch y :
  isspace ch = false -> exists y', rstrip (x ++ ch :: y) = x ++ ch :: y'.
Proof.
  intros Hch. induction x as [|c r [y' IH]]; simpl.
  - destruct (rstrip y) as [|c' r']; [rewrite Hch|]; by eexists.
  - rewrite IH. destruct r; simpl; by eexists.
Qed.

Lemma offsets_from_lookup_inv cs s0 i s e :
  offsets_from s0 cs !! i = Some (s, e) ->
  s = s0 + length (concat (take i cs)) /\
  e = s0 + length (concat (take (S i) cs)).
Proof.
  intros Ho. destruct (cs !! i) as [c|] eqn:Hi.
  - rewrite (offsets_from_lookup cs s0 i c Hi) in Ho. injection Ho as <- <-.
    rewrite (take_S_r cs i c Hi), concat_app, length_app. simpl.
    rewrite app_nil_r. lia.
  - apply lookup_ge_None in Hi. apply lookup_lt_Some in Ho.
    rewrite offsets_from_length in Ho. lia.
Qed.

(** X6. The page ranges tile the untrimmed text: the first starts at 0,
    each next one starts where the one before ends, and the last ends at
    a length [MergedText] does not exceed. As every page's contribution
    ends with a newline, which the final trim removes, [MergedText] is
    strictly shorter than the last range's end whenever that end is not 0. *)
Theorem offsets_tile_untrimmed_text pages m :
  exists m',
    open pages m = Returned m' /\
    (forall s e, page_offsets m' !! 0 = Some (s, e) -> s = 0) /\
    (forall i s e s' e',
        page_offsets m' !! i = Some (s, e) ->
        page_offsets m' !! S i = Some (s', e') -> s' = e) /\
    (forall s e,
        last (page_offsets m') = Some (s, e) ->
        length (merged_text m') ≤ e /\
        (0 < e -> length (merged_text m') < e)).
Proof.
  eexists. split; [apply open_spec|]. cbn [page_offsets merged_text].
  set (cs := contributions _ _ _). split_and!.
  - intros s e Ho. by apply offsets_from_lookup_inv in Ho as [-> _].
  - intros i s e s' e' Hi Hj.
    apply offsets_from_lookup_inv in Hi as [_ ->].
    apply offsets_from_lookup_inv in Hj as [-> _]. done.
  - intros s e Hlast. rewrite last_lookup in Hlast.
    pose proof (lookup_lt_Some _ _ _ Hlast) as Hlt.
    apply offsets_from_lookup_inv in Hlast as [_ ->].
    rewrite offsets_from_length in Hlt |- *.
    replace (S (pred (length cs))) with (length cs) by lia.
    rewrite firstn_all. simpl. split; [apply rstrip_length|].
    intros Hpos.
    destruct (ends_nl_concat cs (contributions_from_ends _ _ _ _ _)) as [Hnil|[s0 Hs0]].
    + rewrite Hnil in Hpos. simpl in Hpos. lia.
    + rewrite Hs0. unfold nl. rewrite rstrip_snoc_space by done.
      rewrite length_app. simpl.
      pose proof (rstrip_length s0). lia.
Qed.

Lemma join_contains sep l : forall j x,
  l !! j = Some x -> exists a b, join sep l = a ++ x ++ b.
Proof.
  induction l as [|s r IH]; intros j x Hj; [done|].
  destruct j as [|j]; simpl in Hj.
  - injection Hj as ->. exists []. simpl. destruct r; eexists; [by rewrite app_nil_r | done].
  - destruct (IH j x Hj) as (a & b & Hab).
    destruct r as [|s' r']; [done|].
    exists (s ++ sep ++ a), b. change (join sep (s :: s' :: r')) with (s ++ sep ++ join sep (s' :: r')).
    rewrite Hab. by rewrite <- !(assoc_L (++)).
Qed.

Lemma marks_from_lookup {A} (imgs : list A) : forall fig0 pno j,
  j < length imgs ->
  marks_from fig0 pno imgs !! j = Some (figure_mark (fig0 + 1 + j) pno).
Proof.
  induction imgs as [|x r IH]; intros fig0 pno j Hj; simpl in *; [lia|].
  destruct j as [|j]; simpl.
  - do 2 f_equal. lia.
  - rewrite IH by lia. do 2 f_equal. lia.
Qed.

Lemma blocks_part_mark hdr ph pno blks : forall fig0 j f,
  omap (block_figure pno) blks !! j = Some f ->
  exists a b, blocks_part hdr ph pno blks fig0 = a ++ figure_mark (fig0 + 1 + j) pno ++ b.
Proof.
  induction blks as [|blk r IH]; intros fig0 j f Hj; [done|].
  cbn [omap list_omap blocks_part] in *. fold (omap (block_figure pno) r) in Hj.
  assert (Htext : (default 0 (blk_type blk) =? 0)%Z = true -> block_figure pno blk = None).
  { intros Ht. unfold block_figure. apply Z.eqb_eq in Ht. by rewrite Ht. }
  destruct (dropped hdr ph blk) eqn:Edrop.
  { rewrite Htext in Hj; [by eapply IH|].
    unfold dropped in Edrop. by destruct hdr, (default 0 (blk_type blk) =? 0)%Z. }
  destruct (default 0 (blk_type blk) =? 0)%Z eqn:Et0.
  { rewrite Htext in Hj by done. destruct (IH fig0 j f Hj) as (a & b & ->).
    exists (text_block_part blk ++ a), b. by rewrite <- (assoc_L (++)). }
  destruct (block_figure pno blk) as [f0|]; [|by eapply IH].
  destruct j as [|j]; simpl in Hj.
  - exists [], (nl2 ++ blocks_part hdr ph pno r (S fig0)). simpl.
    by replace (fig0 + 1 + 0) with (S fig0) by lia.
  - destruct (IH (S fig0) j f Hj) as (a & b & ->).
    exists (figure_mark (S fig0) pno ++ nl2 ++ a), b.
    replace (S fig0 + 1 + j) with (fig0 + 1 + S j) by lia.
    by rewrite <- !(assoc_L (++)).
Qed.

(** The marker of a page's [j]-th figure stands in the page's contribution. *)
Lemma contribution_mark md hdr fig0 pno pg j f :
  page_figures md pno pg !! j = Some f ->
  exists a b, contribution md hdr fig0 pno pg = a ++ figure_mark (fig0 + 1 + j) pno ++ b.
Proof.
  destruct md; cbn [contribution page_figures].
  - unfold simple_figures, simple_contribution. intros Hj.
    apply lookup_lt_Some in Hj. rewrite length_map in Hj.
    destruct (default [] (get_images pg)) as [|x imgs] eqn:E; [simpl in Hj; lia|].
    cbn [nonempty].
    destruct (join_contains (lit " ") (marks_from fig0 pno (x :: imgs)) j
                (figure_mark (fig0 + 1 + j) pno)) as (a & b & ->);
      [by apply marks_from_lookup|].
    exists (text_part pg ++ a), (b ++ nl2). by rewrite <- !(assoc_L (++)).
  - unfold structured_figures, structured_contribution. intros Hj.
    destruct (blocks_part_mark hdr (rect_height pg) pno _ fig0 j f Hj) as (a & b & ->).
    eexists a, (b ++ _). by rewrite <- !(assoc_L (++)).
Qed.

Lemma figures_from_locate md hdr pgs : forall pno fig0 k f,
  figures_from md pno pgs !! k = Some f ->
  exists i c a b,
    contributions_from md hdr pno fig0 pgs !! i = Some c /\
    page f = pno + i /\
    c = a ++ figure_mark (fig0 + 1 + k) (pno + i) ++ b.
Proof.
  induction pgs as [|pg r IH]; intros pno fig0 k f Hk; [done|].
  simpl in Hk. apply lookup_app_Some in Hk as [Hk|[Hlen Hk]].
  - destruct (contribution_mark md hdr fig0 pno pg k f Hk) as (a & b & Hc).
    exists 0, (contribution md hdr fig0 pno pg), a, b.
    rewrite Nat.add_0_r. split_and!; [done | | done].
    eapply page_figures_page, list_elem_of_lookup. eauto.
  - destruct (IH (S pno) (fig0 + length (page_figures md pno pg)) _ f Hk)
      as (i & c & a & b & Hc & Hp & Hcab).
    exists (S i), c, a, b. replace (pno + S i) with (S pno + i) by lia.
    split_and!; [done | done |]. rewrite Hcab. do 3 f_equal. lia.
Qed.

Lemma figure_mark_last fid pno : exists mark0, figure_mark fid pno = mark0 ++ [93%N].
Proof.
  unfold figure_mark. change (lit ")]") with ([41%N] ++ [93%N]).
  eexists. rewrite !(assoc_L (++)). reflexivity.
Qed.

(** X7. Every registered figure has its marker in [MergedText]: the
    marker built from the figure's id and the 1-based number of its
    owning page stands at a position inside that page's range, and the
    final trim does not cut it. *)
Theorem markers_in_merged_text pages m :
  exists m',
    open pages m = Returned m' /\
    forall k f,
      figures m' !! k = Some f ->
      exists s e pos,
        page_offsets m' !! page f = Some (s, e) /\
        s ≤ pos /\ pos + length (figure_mark k (page f)) ≤ e /\
        occurs_at (figure_mark k (page f)) (merged_text m') pos.
Proof.
  eexists. split; [apply open_spec|]. cbn [figures page_offsets merged_text].
  intros k f Hk. rewrite register_all_lookup in Hk.
  destruct (decide (0 < k ≤ 0 + length (doc_figures (mode m) pages))) as [Hkr|];
    [|by rewrite lookup_empty in Hk].
  destruct (figures_from_locate (mode m) (strip_headers m) pages 0 0 _ f Hk)
    as (i & c & a & b & Hc & Hp & Hcab).
  cbn [Nat.add] in Hp, Hcab. subst i.
  replace (S (k - 0 - 1)) with k in Hcab by lia.
  fold (contributions (mode m) (strip_headers m) pages) in Hc.
  set (cs := contributions _ _ _) in *.
  set (mark := figure_mark k (page f)) in *.
  set (pre := concat (take (page f) cs)).
  exists (length pre), (length pre + length c), (length pre + length a).
  split_and!.
  - by rewrite (offsets_from_lookup cs 0 (page f) c).
  - lia.
  - rewrite Hcab, !length_app. lia.
  - destruct (figure_mark_last k (page f)) as [mark0 Hmark]. fold mark in Hmark.
    assert (Hbuf : concat cs = (pre ++ a ++ mark0) ++ 93%N :: (b ++ concat (drop (S (page f)) cs))).
    { rewrite <- (take_drop_middle cs (page f) c Hc) at 1.
      rewrite concat_app. simpl. rewrite Hcab, Hmark. by rewrite <- !(assoc_L (++)). }
    destruct (rstrip_keeps (pre ++ a ++ mark0) 93%N
                (b ++ concat (drop (S (page f)) cs)) eq_refl) as [y' Hr].
    rewrite <- Hbuf in Hr. rewrite Hr.
    assert (Hm : (pre ++ a ++ mark0) ++ 93%N :: y' = (pre ++ a) ++ mark ++ y').
    { rewrite Hmark. by rewrite <- !(assoc_L (++)). }
    rewrite Hm. unfold occurs_at. split.
    + rewrite !length_app. lia.
    + rewrite <- (length_app pre a). apply slice_middle.
Qed.

(** X8. Header and footer stripping never touches figures: the figure
    registry is the same with stripping on and off, in either mode. In
    simple mode the flag changes nothing at all in the text and the
    offsets. *)
Theorem strip_headers_keeps_figures pages m hdr1 hdr2 :
  let with_flag hdr :=
    mk (doc m) (page_count m) (dpi m) (mode m) hdr
       (merged_text m) (figures m) (page_offsets m) (page_pix_cache m) in
  exists m1 m2,
    open pages (with_flag hdr1) = Returned m1 /\
    open pages (with_flag hdr2) = Returned m2 /\
    figures m1 = figures m2 /\
    length (page_offsets m1) = length (page_offsets m2) /\
    (mode m = simple ->
     merged_text m1 = merged_text m2 /\ page_offsets m1 = page_offsets m2).
Proof.
  cbn zeta. do 2 eexists. split; [apply open_spec|]. split; [apply open_spec|].
  cbn [figures page_offsets merged_text mode strip_headers].
  split_and!.
  - done.
  - unfold contributions. by rewrite !offsets_from_length, !contributions_from_length.
  - intros ->.
    assert (Hcs : forall hdr pno fig0 pgs,
              contributions_from simple hdr pno fig0 pgs
              = contributions_from simple hdr2 pno fig0 pgs).
    { intros hdr pno fig0 pgs. revert pno fig0.
      induction pgs as [|pg r IH]; intros; simpl; [done|]. by rewrite IH. }
    unfold contributions. by rewrite (Hcs hdr1).
Qed.

End ExtractionMore.

(** ** More on rendering a page *)

Module RenderMore.
Import LRUCache LRUCacheFacts LRUCacheMore DocModel Invariant RenderFacts Runs.

Lemma with_cache_ok m c : doc_ok m -> cache_ok c -> model_ok (with_cache m c).
Proof. intros Hd Hc. split; [exact Hd | exact Hc]. Qed.

Lemma od_get_sublist (k : Key) (x : QImage) (l1 l2 : list (Key * QImage)) :
  NoDup l2.*1 -> l1 `sublist_of` l2 -> od_get k l1 = Some x -> od_get k l2 = Some x.
Proof.
  intros Hnd Hsub Hget. apply od_get_elem; [done|].
  eapply elem_of_sublist; [|exact Hsub]. by apply od_get_Some_elem.
Qed.

(** [render_page] for a page in range: the cache afterwards, what became
    of the entries, and what the call left behind. *)
Lemma render_page_result env m pno safe pages :
  model_ok m -> doc m = Some pages -> 0 <= pno < Z.of_nat (page_count m) ->
  exists c',
    (render_page env m pno safe).2 = with_cache m c' /\
    cache_ok c' /\
    (forall key' x, key' <> _page_key m pno safe ->
        od_get key' (d c') = Some x -> od_get key' (d (page_pix_cache m)) = Some x) /\
    match (render_page env m pno safe).1 with
    | Returned (Some img) =>
        (is_tile img = false ->
         od_get (_page_key m pno safe) (d c') = Some img /\
         last (d c') = Some (_page_key m pno safe, img)) /\
        (is_tile img = true -> c' = page_pix_cache m)
    | Returned None => False
    | Raised =>
        load_page_raises env pno = true /\
        od_get (_page_key m pno safe) (d (page_pix_cache m)) = None /\
        c' = page_pix_cache m
    end.
Proof.
  intros Hok Hpages Hrange.
  destruct (render_page_in_range env m pno safe pages Hok Hpages Hrange)
    as (pg & Hlk & Hrender).
  cbn zeta in Hrender. rewrite Hrender.
  pose proof Hok as [Hdoc Hc]. pose proof Hc as (Hmx & Hwf & Hlen & Hno).
  set (key := _page_key m pno safe) in *.
  destruct (od_get key (d (page_pix_cache m))) as [img|] eqn:Hget.
  - assert (Himg : is_tile img = false).
    { apply (Hno key). by apply od_get_Some_elem. }
    destruct (cache_ok_snoc (page_pix_cache m) key img Hc Himg) as (Hc' & Hg' & Hl').
    assert (Hfit : (length (od_pop key (d (page_pix_cache m)) ++ [(key, img)])
                    <= Z.to_nat (max (page_pix_cache m)))%nat).
    { rewrite length_app. simpl. pose proof (od_pop_length_hit key img _ Hget). lia. }
    rewrite (lastn_all _ _ Hfit) in Hc', Hg', Hl'.
    eexists. split_and!; [reflexivity | done | | cbn [fst]; split; [done | congruence]].
    intros key' x Hne. cbn [d]. by rewrite od_get_snoc_ne.
  - destruct (load_page_raises env pno) eqn:Hload.
    { exists (page_pix_cache m). rewrite with_cache_same. split_and!; done. }
    destruct (rasterise env (dpi m) pg safe) as [img|] eqn:Hras.
    + pose proof (rasterise_genuine _ _ _ _ _ Hras) as Himg.
      destruct (cache_ok_snoc (page_pix_cache m) key img Hc Himg) as (Hc' & Hg' & Hl').
      eexists. split_and!; [reflexivity | done | | cbn [fst]; split; [done | congruence]].
      intros key' x Hne Hx. cbn [d] in Hx.
      rewrite <- (od_get_snoc_ne key key' img) by done.
      eapply od_get_sublist; [|apply lastn_sublist|exact Hx].
      by apply keys_snoc_NoDup.
    + exists (page_pix_cache m). rewrite with_cache_same. split_and!; done.
Qed.

(** A second call for an image that was stored is a cache hit that
    changes nothing. *)
Lemma render_page_again env2 m pno safe pages c img :
  doc_ok m -> doc m = Some pages -> 0 <= pno < Z.of_nat (page_count m) ->
  cache_ok c ->
  od_get (_page_key m pno safe) (d c) = Some img ->
  last (d c) = Some (_page_key m pno safe, img) ->
  render_page env2 (with_cache m c) pno safe = (Returned (Some img), with_cache m c).
Proof.
  intros Hdoc Hpages Hrange Hc Hget Hlast.
  destruct (render_page_in_range env2 (with_cache m c) pno safe pages)
    as (pg & _ & Hrender); [by apply with_cache_ok | done | done |].
  cbn zeta in Hrender. rewrite Hrender.
  change (_page_key (with_cache m c) pno safe) with (_page_key m pno safe).
  cbn [with_cache page_pix_cache]. rewrite Hget.
  destruct Hc as (_ & Hwf & _).
  rewrite (od_pop_last_id _ img (d c)) by done. by destruct c.
Qed.

(** X9. A successful render is memoised: once [render_page] has
    returned an image that is not the placeholder, the same call returns
    the same image again whatever the decoder would do now, and leaves the
    model, cache order included, as it is. *)
Theorem render_memoised env m pno safe pages img m' :
  model_ok m -> doc m = Some pages -> 0 <= pno < Z.of_nat (page_count m) ->
  render_page env m pno safe = (Returned (Some img), m') ->
  is_tile img = false ->
  forall env2, render_page env2 m' pno safe = (Returned (Some img), m').
Proof.
  intros Hok Hpages Hrange Hrender Himg env2.
  destruct (render_page_result env m pno safe pages Hok Hpages Hrange)
    as (c' & Hm' & Hc' & _ & Hcase).
  rewrite Hrender in Hm', Hcase. cbn [fst snd] in Hm', Hcase. subst m'.
  destruct Hcase as [Hgen _]. destruct (Hgen Himg) as [Hget Hlast].
  apply (render_page_again env2 m pno safe pages c' img); try done. apply Hok.
Qed.

(** X10. [render_page] stores under its own key only: whatever the
    cache holds afterwards under another key it held before, with the same
    image. In particular a render on one decode path never makes the
    other path's key present. *)
Theorem render_stores_own_key_only env m pno safe :
  model_ok m ->
  (forall key' x,
      key' <> _page_key m pno safe ->
      od_get key' (d (page_pix_cache (render_page env m pno safe).2)) = Some x ->
      od_get key' (d (page_pix_cache m)) = Some x) /\
  (od_get (_page_key m pno (negb safe)) (d (page_pix_cache m)) = None ->
   od_get (_page_key m pno (negb safe))
          (d (page_pix_cache (render_page env m pno safe).2)) = None).
Proof.
  intros Hok.
  assert (Hother : forall key' x,
      key' <> _page_key m pno safe ->
      od_get key' (d (page_pix_cache (render_page env m pno safe).2)) = Some x ->
      od_get key' (d (page_pix_cache m)) = Some x).
  { intros key' x Hne.
    destruct (doc m) as [pages|] eqn:Hpages.
    2:{ unfold render_page. by rewrite Hpages. }
    destruct ((pno <? 0) || (pno >=? Z.of_nat (page_count m))) eqn:Hrange.
    { unfold render_page. by rewrite Hpages, Hrange. }
    apply in_range_test in Hrange.
    destruct (render_page_result env m pno safe pages Hok Hpages Hrange)
      as (c' & Hr & _ & Hkeep & _).
    rewrite Hr. cbn [with_cache page_pix_cache]. by apply Hkeep. }
  split; [exact Hother|].
  intros Hnone.
  destruct (od_get _ (d (page_pix_cache (render_page env m pno safe).2))) as [x|] eqn:E;
    [|done].
  apply Hother in E; [congruence|].
  unfold _page_key. destruct safe; simpl; congruence.
Qed.

(** One call, for any page index: it returns, or the page load raised. *)
Lemma render_page_step env m pno safe :
  model_ok m ->
  exists r m',
    render_page env m pno safe = (r, m') /\
    model_ok m' /\ doc m' = doc m /\ page_count m' = page_count m /\
    match r with
    | Returned x =>
        x = None <-> doc m = None \/ pno < 0 \/ Z.of_nat (page_count m) <= pno
    | Raised =>
        load_page_raises env pno = true /\
        doc m <> None /\ 0 <= pno < Z.of_nat (page_count m)
    end.
Proof.
  intros Hok.
  destruct (doc m) as [pages|] eqn:Hpages.
  2:{ exists (Returned None), m. unfold render_page. rewrite Hpages.
      split_and!; try done. tauto. }
  destruct ((pno <? 0) || (pno >=? Z.of_nat (page_count m))) eqn:Hrange.
  { exists (Returned None), m. unfold render_page. rewrite Hpages, Hrange.
    split_and!; try done. split; [|done]. intros _. right.
    destruct (Z.ltb_spec pno 0); [lia|]. rewrite Z.geb_leb in Hrange.
    destruct (Z.leb_spec (Z.of_nat (page_count m)) pno); [lia|done]. }
  apply in_range_test in Hrange.
  destruct (render_page_result env m pno safe pages Hok Hpages Hrange)
    as (c' & Hr & Hc' & _ & Hcase).
  destruct (render_page env m pno safe) as [r m'] eqn:E.
  cbn [fst snd] in Hr, Hcase. subst m'.
  exists r, (with_cache m c'). split_and!; try done.
  - apply with_cache_ok; [apply Hok | done].
  - destruct r as [[img|]|]; [|done|].
    + split; [done|]. intros [?|?]; [done | lia].
    + destruct Hcase as (Hload & _). split_and!; try done; lia.
Qed.

(** X11. Any sequence of [render_page] calls on a model as [open] leaves
    it keeps the model in order, whether it goes through or ends at a
    call that raised: the model keeps its document and page count, the
    cache stays within 20 entries with unique keys and holds no
    placeholder. A call raises only when the decoder raises while it
    loads the page, for a page in range of an open document; and when
    the sequence goes through, a call's result is absent exactly when
    there is no document or its page index is out of range. *)
Theorem render_calls_keep_model calls m :
  model_ok m ->
  exists r m',
    render_calls calls m = (r, m') /\
    model_ok m' /\ doc m' = doc m /\ page_count m' = page_count m /\
    match r with
    | Returned rs =>
        Forall2 (fun call x =>
                   x = None <->
                   doc m = None \/ call.1.2 < 0 \/ Z.of_nat (page_count m) <= call.1.2)
                calls rs
    | Raised =>
        exists env pno safe,
          (env, pno, safe) ∈ calls /\ load_page_raises env pno = true /\
          doc m <> None /\ 0 <= pno < Z.of_nat (page_count m)
    end.
Proof.
  revert m. induction calls as [|[[env pno] safe] r IH]; intros m Hok.
  { exists (Returned []), m. by split_and!. }
  cbn [render_calls].
  destruct (render_page_step env m pno safe Hok) as (x & m1 & Hr & Hok1 & Hd1 & Hp1 & Hx).
  rewrite Hr. destruct x as [x|].
  2:{ exists Raised, m1. split_and!; try done.
      exists env, pno, safe. split; [apply list_elem_of_here | done]. }
  destruct (IH m1 Hok1) as (xs & m2 & Hrs & Hok2 & Hd2 & Hp2 & Hall).
  rewrite Hrs. destruct xs as [xs|].
  - exists (Returned (x :: xs)), m2.
    split_and!; [done | done | congruence | congruence |].
    apply Forall2_cons. split; [done|].
    eapply Forall2_impl; [exact Hall|]. intros call res. cbn beta.
    by rewrite Hd1, Hp1.
  - exists Raised, m2. split_and!; [done | done | congruence | congruence |].
    destruct Hall as (env' & pno' & safe' & Hin & Hload & Hdoc' & Hrange').
    exists env', pno', safe'. split_and!; try done.
    + by apply list_elem_of_further.
    + congruence.
    + lia.
    + lia.
Qed.

(** X12. Whatever resolution a model is built with, the scale of the
    first rasterisation request lies between 1.0 and 3.0; the floor of 0.5
    never applies; and when that request fails the pipeline fails. *)
Theorem first_scale_range dpi0 md hdr :
  let r := dpi (DocModel.init dpi0 md hdr) in
  72 <= r <= 220 /\
  PrimFloat.leb 1 (first_scale r) = true /\
  PrimFloat.leb (first_scale r) 3 = true /\
  PrimFloat.ltb (PrimFloat.div (float_of_Z r) 72) 0.5 = false /\
  forall env pg safe,
    get_pixmap env pg (first_scale r) = None -> rasterise env r pg safe = None.
Proof.
  cbn zeta. cbn [DocModel.init dpi].
  set (r := Z.max 72 (Z.min dpi0 220)).
  assert (Hr : 72 <= r <= 220) by (subst r; lia).
  assert (Hall : forallb (fun z => PrimFloat.leb 1 (first_scale z)
                                   && PrimFloat.leb (first_scale z) 3
                                   && negb (PrimFloat.ltb (PrimFloat.div (float_of_Z z) 72) 0.5))
                         (seqZ 72 149) = true).
  { vm_compute. reflexivity. }
  rewrite forallb_forall in Hall.
  assert (Hin : In r (seqZ 72 149)).
  { apply list_elem_of_In, elem_of_seqZ. lia. }
  specialize (Hall r Hin). apply andb_prop in Hall as [Hall H3].
  apply andb_prop in Hall as [H1 H2]. apply negb_true_iff in H3.
  split; [exact Hr|]. split; [exact H1|]. split; [exact H2|]. split; [exact H3|].
  intros env pg safe Hfail. unfold rasterise. fold (first_scale r). by rewrite Hfail.
Qed.

End RenderMore.

Lemma render_memoised_witness :
  let m := Sample.opened DocModel.simple [Sample.page_a] in
  DocModel.render_page Sample.failing
    (DocModel.render_page Sample.working m 0 true).2 0 true
  = (Returned (Some (FromData [0; 0; 0; 0]%N)),
     (DocModel.render_page Sample.working m 0 true).2).
Proof.
  cbn zeta.
  refine (RenderMore.render_memoised Sample.working
            (Sample.opened DocModel.simple [Sample.page_a]) 0 true [Sample.page_a]
            _ _ _ _ _ _ _ Sample.failing).
  - apply (RenderFacts.open_ok [Sample.page_a] (DocModel.init 110 DocModel.simple false)).
    + apply RenderFacts.init_ok.
    + unfold Sample.opened. by rewrite ExtractionFacts.open_spec.
  - unfold Sample.opened. by rewrite ExtractionFacts.open_spec.
  - unfold Sample.opened. rewrite ExtractionFacts.open_spec. simpl. lia.
  - vm_compute. reflexivity.
  - reflexivity.
Defined.

Lemma render_stores_own_key_only_witness :
  let m := Sample.opened DocModel.simple [Sample.page_a] in
  (forall key' x,
      key' <> DocModel._page_key m 0 true ->
      LRUCache.od_get key'
        (LRUCache.d (DocModel.page_pix_cache
                       (DocModel.render_page Sample.working m 0 true).2)) = Some x ->
      LRUCache.od_get key' (LRUCache.d (DocModel.page_pix_cache m)) = Some x) /\
  (LRUCache.od_get (DocModel._page_key m 0 (negb true))
                   (LRUCache.d (DocModel.page_pix_cache m)) = None ->
   LRUCache.od_get (DocModel._page_key m 0 (negb true))
     (LRUCache.d (DocModel.page_pix_cache
                    (DocModel.render_page Sample.working m 0 true).2)) = None).
Proof.
  cbn zeta.
  apply (RenderMore.render_stores_own_key_only Sample.working
           (Sample.opened DocModel.simple [Sample.page_a]) 0 true).
  apply (RenderFacts.open_ok [Sample.page_a] (DocModel.init 110 DocModel.simple false)).
  - apply RenderFacts.init_ok.
  - unfold Sample.opened. by rewrite ExtractionFacts.open_spec.
Defined.

Lemma render_calls_keep_model_witness :
  let m := Sample.opened DocModel.simple [Sample.page_a] in
  let calls := [(Sample.failing, 0, true); (Sample.working, 5, false);
                (Sample.unloadable, 0, false)] in
  exists r m',
    Runs.render_calls calls m = (r, m') /\
    Invariant.model_ok m' /\ DocModel.doc m' = DocModel.doc m /\
    DocModel.page_count m' = DocModel.page_count m /\
    match r with
    | Returned rs =>
        Forall2 (fun call x =>
                   x = None <->
                   DocModel.doc m = None \/ call.1.2 < 0
                   \/ Z.of_nat (DocModel.page_count m) <= call.1.2)
                calls rs
    | Raised =>
        exists env pno safe,
          (env, pno, safe) ∈ calls /\ load_page_raises env pno = true /\
          DocModel.doc m <> None /\ 0 <= pno < Z.of_nat (DocModel.page_count m)
    end.
Proof.
  cbn zeta.
  apply (RenderMore.render_calls_keep_model
           [(Sample.failing, 0, true); (Sample.working, 5, false);
            (Sample.unloadable, 0, false)]
           (Sample.opened DocModel.simple [Sample.page_a])).
  apply (RenderFacts.open_ok [Sample.page_a] (DocModel.init 110 DocModel.simple false)).
  - apply RenderFacts.init_ok.
  - unfold Sample.opened. by rewrite ExtractionFacts.open_spec.
Defined.

(** ** More on the view *)

Module ViewMore.
Import DocModel PdfView PdfViewOps Pass Invariant RenderFacts RenderMore PassFacts Runs.
Local Open Scope nat_scope.

Lemma same_shape_refl v : same_shape v v.
Proof. unfold same_shape. split_and!; try done. intros m1 Hm. by exists m1. Qed.

Lemma same_shape_trans v1 v2 v3 :
  same_shape v1 v2 -> same_shape v2 v3 -> same_shape v1 v3.
Proof.
  intros (Hl1 & Ht1 & Ha1 & Hi1 & Hd1 & Hm1) (Hl2 & Ht2 & Ha2 & Hi2 & Hd2 & Hm2).
  unfold same_shape. split_and!; try congruence.
  intros m3 Hm3. destruct (Hm2 m3 Hm3) as (m2 & Hm2' & Hp2).
  destruct (Hm1 m2 Hm2') as (m1 & Hm1' & Hp1). exists m1. split; [done | congruence].
Qed.

Lemma render_single_page_raw_shape env v pno :
  same_shape v (render_single_page_raw env v pno).2.
Proof.
  unfold render_single_page_raw. destruct (model v) as [m|] eqn:Hm.
  - destruct (render_page_frame env m pno (safe_png v)) as [c Hc].
    destruct (render_page env m pno (safe_png v)) as [[r|] m'];
      cbn [snd] in Hc |- *; subst m'; unfold same_shape;
      cbn [with_model page_items timer_active _all_active _all_idx render_delay_ms model];
      split_and!; try done; intros m1 [= <-]; by exists m.
  - apply same_shape_refl.
Qed.

Lemma set_img_shape p img v : same_shape v (set_img p img v).
Proof.
  unfold same_shape, set_img.
  cbn [with_items page_items timer_active _all_active _all_idx render_delay_ms model].
  rewrite length_insert. split_and!; try done. intros m1 Hm. by exists m1.
Qed.

Lemma view_ok_shape v v' : view_ok v -> same_shape v v' -> view_ok v'.
Proof.
  intros (Ht & Hm & Hd) (Hl' & Ht' & Ha' & _ & Hd' & Hm').
  unfold view_ok. split_and!; try congruence; try lia.
  intros m1 Hm1. destruct (Hm' m1 Hm1) as (m & Hmv & Hp). rewrite Hl', Hp. by apply Hm.
Qed.

Lemma tick_returns env v :
  view_ok v -> exists es v', tick env v = (Returned es, v').
Proof.
  intros (_ & Hm & _). unfold tick. destruct (timer_active v); [|by eexists _, _].
  unfold _render_all_step. destruct (model v) as [m|] eqn:Hmodel; [|by eexists _, _].
  destruct (Nat.leb_spec (page_count m) (_all_idx v)) as [?|Hlt]; [by eexists _, _|].
  destruct (lookup_lt_is_Some_2 (page_items v) (_all_idx v)) as [item ->].
  { rewrite (Hm m eq_refl). lia. }
  destruct (original_img item); [by eexists _, _|].
  destruct (render_single_page_raw env v (Z.of_nat (_all_idx v))). by eexists _, _.
Qed.

Lemma with_scheduler_idx_ok v idx :
  view_ok v ->
  view_ok (with_scheduler v (timer_active v) (timer_interval v) idx (_all_active v)).
Proof. intros Hok. exact Hok. Qed.

Lemma tick_ok env v : view_ok v -> view_ok (tick env v).2.
Proof.
  intros Hok. unfold tick. destruct (timer_active v) eqn:Ht; [|done].
  unfold _render_all_step.
  assert (Hstop : view_ok (stop v)).
  { destruct Hok as (_ & Hm & Hd). unfold view_ok, stop.
    cbn [with_scheduler timer_active _all_active page_items model render_delay_ms].
    split; [done|]. split; [exact Hm | exact Hd]. }
  destruct (model v) as [m|] eqn:Hmodel; [|exact Hstop].
  destruct (page_count m <=? _all_idx v); [exact Hstop|].
  destruct (page_items v !! _all_idx v) as [item|]; [|exact Hok].
  destruct (original_img item); [by apply with_scheduler_idx_ok|].
  pose proof (render_single_page_raw_shape env v (Z.of_nat (_all_idx v))) as Hs1.
  destruct (render_single_page_raw env v (Z.of_nat (_all_idx v))) as [img v1].
  cbn [snd] in Hs1 |- *. apply with_scheduler_idx_ok.
  destruct img; [|exact (view_ok_shape _ _ Hok Hs1)].
  eapply view_ok_shape; [exact Hok|].
  eapply same_shape_trans; [exact Hs1 | apply set_img_shape].
Qed.

Lemma set_model_ok mo v : view_ok v -> view_ok (set_model mo v).
Proof.
  intros (Ht & _ & Hd). unfold set_model.
  destruct (timer_active v) eqn:Hta; destruct mo as [m|];
    unfold view_ok;
    cbn [stop with_scheduler with_items with_model timer_active _all_active
         page_items model render_delay_ms];
    (split; [congruence|]); (split; [|exact Hd]);
    intros m1 Hm1; try done; injection Hm1 as <-; by rewrite length_map, length_seq.
Qed.

Lemma act_ok a v : view_ok v -> view_ok (act a v).
Proof.
  intros Hok. destruct a as [mo| | |env|d|on|d|p|env p]; cbn [act].
  - by apply set_model_ok.
  - destruct (model v) as [m|] eqn:Hm; [|done].
    destruct Hok as (Ht & Hmv & Hd). split; [exact Ht|]. split; [|exact Hd].
    intros m1 [= <-].
    assert (Hpc : page_count (close m) = page_count m).
    { unfold close. by destruct (doc m) as [[|pg pages]|]. }
    rewrite Hpc. exact (Hmv m Hm).
  - unfold render_all_pages. destruct (model v) as [m|] eqn:Hm; [|done].
    destruct (_all_active v) eqn:Ha; [done|].
    destruct Hok as (Ht & Hmv & Hd). split; [done|]. split; [exact Hmv | exact Hd].
  - by apply tick_ok.
  - destruct Hok as (Ht & Hmv & Hd). unfold view_ok, set_render_delay.
    cbn [timer_active _all_active page_items model render_delay_ms].
    split; [exact Ht|]. split; [exact Hmv | lia].
  - exact Hok.
  - exact Hok.
  - eapply view_ok_shape; [exact Hok | apply set_img_shape].
  - unfold PageItem._render_once.
    pose proof (render_single_page_raw_shape env v (Z.of_nat p)) as Hs1.
    destruct (render_single_page_raw env v (Z.of_nat p)) as [img v1]. cbn [snd] in Hs1.
    eapply view_ok_shape; [exact Hok|].
    eapply same_shape_trans; [exact Hs1 | apply set_img_shape].
Qed.

(** X13. Whatever the window does with a view, from [PdfView()] on
    (replacing or closing the model, starting the render-all pass, timer
    ticks, settings, clearing or rendering single items, in any order),
    the timer is active exactly when the active flag is set, there is
    one page item per page of the model, and the delay is within 0..1000;
    so a timer tick never raises (no page item is indexed out of range).
    A call of [render_visible_lite] that returns has rendered nothing
    and left the view as it is. *)
Theorem view_invariant acts :
  view_ok (after acts) /\
  (forall env, exists es v', tick env (after acts) = (Returned es, v')) /\
  (forall env g count r,
      render_visible_lite env g count (after acts) = Some r ->
      r = (Returned [], after acts)).
Proof.
  assert (Hok : view_ok (after acts)).
  { unfold after.
    assert (Hinit : view_ok PdfView.init).
    { unfold view_ok. simpl. split; [done|]. split; [done | lia]. }
    revert Hinit. generalize PdfView.init.
    induction acts as [|a r IH]; intros v Hv; simpl; [done|].
    apply IH. by apply act_ok. }
  split_and!; [done | |].
  - intros env. by apply tick_returns.
  - intros env g count r. unfold render_visible_lite, _visible_range.
    destruct (model (after acts)); [|by intros [= <-]].
    destruct (page_items (after acts)); [by intros [= <-]|].
    by rewrite mapTo_container.
Qed.

(** X14. Replacing the model cancels a running pass: after [set_model],
    with a model or without, the scheduler is Idle, a timer tick does
    nothing, every page item is empty, and with a model there is one item
    per page. *)
Theorem set_model_cancels mo v :
  timer_active v = _all_active v ->
  idle (set_model mo v) = true /\
  (forall env, tick env (set_model mo v) = (Returned [], set_model mo v)) /\
  Forall (fun item => original_img item = None) (page_items (set_model mo v)) /\
  (forall m, mo = Some m -> length (page_items (set_model mo v)) = page_count m) /\
  (mo = None -> page_items (set_model mo v) = []).
Proof.
  intros Hinv.
  assert (Htimer : timer_active (set_model mo v) = false).
  { unfold set_model. destruct (timer_active v) eqn:Ht; by destruct mo. }
  assert (Hactive : _all_active (set_model mo v) = false).
  { unfold set_model. destruct (timer_active v) eqn:Ht; destruct mo; simpl; congruence. }
  split_and!.
  - unfold idle. by rewrite Htimer, Hactive.
  - intros env. unfold tick. by rewrite Htimer.
  - unfold set_model. destruct mo as [m|]; cbn [with_items with_model page_items].
    + apply Forall_forall. intros item Hin.
      apply list_elem_of_fmap in Hin as (i & -> & _). done.
    + done.
  - intros m ->. unfold set_model. cbn [with_items with_model page_items].
    by rewrite length_map, length_seq.
  - intros ->. done.
Qed.

End ViewMore.

(** ** The view together with its model *)

Module SessionMore.
Import LRUCache DocModel PdfView PdfViewOps Pass Invariant Contribution.
Import ExtractionFacts RenderFacts RenderMore PassFacts Runs.
Local Open Scope nat_scope.

(** Not cached and the page load raises: the call raises and changes
    nothing. *)
Lemma render_page_load_raises env m pno safe pages :
  model_ok m -> doc m = Some pages -> (0 <= pno < Z.of_nat (page_count m))%Z ->
  od_get (_page_key m pno safe) (d (page_pix_cache m)) = None ->
  load_page_raises env pno = true ->
  render_page env m pno safe = (Raised, m).
Proof.
  intros Hok Hpages Hrange Hget Hload.
  destruct (render_page_in_range env m pno safe pages Hok Hpages Hrange)
    as (pg & _ & Hrender).
  cbn zeta in Hrender. by rewrite Hrender, Hget, Hload.
Qed.

(** [render_single_page_raw] for a page in range of an open document. *)
Lemma render_single_in_range env v m pages p :
  model v = Some m -> model_ok m -> doc m = Some pages -> p < page_count m ->
  exists r c',
    render_single_page_raw env v (Z.of_nat p)
      = (r, with_model v (Some (with_cache m c'))) /\
    cache_ok c' /\
    (forall key' x, key' <> _page_key m (Z.of_nat p) (safe_png v) ->
        od_get key' (d c') = Some x -> od_get key' (d (page_pix_cache m)) = Some x) /\
    (forall img, r = Some img -> is_tile img = false ->
       od_get (_page_key m (Z.of_nat p) (safe_png v)) (d c') = Some img /\
       last (d c') = Some (_page_key m (Z.of_nat p) (safe_png v), img)) /\
    (load_page_raises env (Z.of_nat p) = false -> is_Some r) /\
    (load_page_raises env (Z.of_nat p) = true ->
     od_get (_page_key m (Z.of_nat p) (safe_png v)) (d (page_pix_cache m)) = None ->
     r = None).
Proof.
  intros Hm Hok Hpages Hp. unfold render_single_page_raw. rewrite Hm.
  assert (Hrange : (0 <= Z.of_nat p < Z.of_nat (page_count m))%Z) by lia.
  destruct (render_page_result env m (Z.of_nat p) (safe_png v) pages Hok Hpages Hrange)
    as (c' & Hm' & Hc' & Hkeep & Hcase).
  pose proof (render_page_load_raises env m (Z.of_nat p) (safe_png v) pages
                Hok Hpages Hrange) as Hraise.
  destruct (render_page env m (Z.of_nat p) (safe_png v)) as [[[img|]|] m'] eqn:E;
    cbn [fst snd] in Hm', Hcase; subst m'; [|done|].
  - exists (Some img), c'. split_and!; [done | done | done | | by eexists |].
    + intros img' [= <-]. apply Hcase.
    + intros Hload Hget. by specialize (Hraise Hget Hload).
  - exists None, c'. destruct Hcase as (Hload & Hget & ->).
    split_and!; [done | done | done | done | congruence | done].
Qed.

(** A pass over an open document, from the cursor on: every tick
    handles its page, and the page has an image afterwards when the
    decoder loaded it; when the decoder raised while loading it, a page
    that had no image and no cache entry is left without one. *)
Lemma ticks_render_all envs : forall v m pages,
  model v = Some m -> model_ok m -> doc m = Some pages ->
  length (page_items v) = page_count m -> timer_active v = true ->
  _all_idx v + length envs ≤ page_count m ->
  exists es v1,
    ticks envs v = (Returned es, v1) /\
    (forall i, i < _all_idx v -> page_items v1 !! i = page_items v !! i) /\
    (forall k env item,
        envs !! k = Some env -> page_items v1 !! (_all_idx v + k) = Some item ->
        (load_page_raises env (Z.of_nat (_all_idx v + k)) = false ->
         is_Some (original_img item)) /\
        (load_page_raises env (Z.of_nat (_all_idx v + k)) = true ->
         page_items v !! (_all_idx v + k) = Some {| original_img := None |} ->
         od_get (_page_key m (Z.of_nat (_all_idx v + k)) (safe_png v))
                (d (page_pix_cache m)) = None ->
         original_img item = None)).
Proof.
  induction envs as [|env envs IH]; intros v m pages Hm Hok Hpages Hlen Htimer Hidx.
  { exists [], v. split_and!; done. }
  cbn [length] in Hidx. cbn [ticks]. unfold tick. rewrite Htimer.
  unfold _render_all_step. rewrite Hm.
  destruct (Nat.leb_spec (page_count m) (_all_idx v)) as [?|Hlt]; [lia|].
  destruct (lookup_lt_is_Some_2 (page_items v) (_all_idx v)) as [item0 Hitem]; [lia|].
  rewrite Hitem.
  destruct (original_img item0) as [img0|] eqn:Himg0.
  - set (v' := with_scheduler v _ _ _ _).
    destruct (IH v' m pages) as (es & v1 & Ht & Hbefore & Hall); try done.
    { subst v'. cbn [with_scheduler _all_idx]. lia. }
    rewrite Ht. eexists _, v1. split; [reflexivity|].
    subst v'. cbn [with_scheduler _all_idx page_items safe_png] in Hbefore, Hall.
    split.
    { intros i Hi. apply Hbefore. lia. }
    intros [|k] env' item Henv Hlk.
    + rewrite Nat.add_0_r in *. rewrite Hbefore in Hlk by lia.
      rewrite Hitem in Hlk. injection Hlk as <-. rewrite Himg0. split; [by eexists|].
      intros _ Hnone. rewrite Hitem in Hnone. injection Hnone as ->. done.
    + cbn [lookup list_lookup] in Henv.
      replace (_all_idx v + S k) with (S (_all_idx v) + k) in * by lia.
      by apply (Hall k env' item).
  - destruct (render_single_in_range env v m pages (_all_idx v) Hm Hok Hpages Hlt)
      as (r & c' & Hr & Hc' & Hkeep & _ & Hloaded & Hraised).
    rewrite Hr.
    set (va := with_model v (Some (with_cache m c'))).
    set (vb := match r with Some _ => set_img (_all_idx v) r va | None => va end).
    assert (Hvb : model vb = Some (with_cache m c') /\ timer_active vb = true /\
                  _all_idx vb = _all_idx v /\ safe_png vb = safe_png v /\
                  length (page_items vb) = length (page_items v) /\
                  (forall i, i <> _all_idx v -> page_items vb !! i = page_items v !! i) /\
                  page_items vb !! _all_idx v
                  = Some (match r with
                          | Some _ => {| original_img := r |}
                          | None => item0
                          end)).
    { subst vb va. destruct r;
        cbn [set_img with_items with_model model timer_active _all_idx safe_png
             page_items];
        rewrite ?length_insert; split_and!; try done.
      - intros i Hi. by rewrite list_lookup_insert_ne.
      - rewrite list_lookup_insert_eq by lia. done. }
    destruct Hvb as (Hmb & Htb & Hib & Hsb & Hlb & Hob & Hcb).
    set (v' := with_scheduler vb _ _ _ _).
    destruct (IH v' (with_cache m c') pages) as (es & v1 & Ht & Hbefore & Hall).
    { done. }
    { apply with_cache_ok; [apply Hok | done]. }
    { done. }
    { subst v'. cbn [with_scheduler page_items with_cache page_count]. lia. }
    { done. }
    { subst v'. cbn [with_scheduler _all_idx with_cache page_count]. lia. }
    rewrite Ht. eexists _, v1. split; [reflexivity|].
    subst v'. cbn [with_scheduler _all_idx page_items safe_png] in Hbefore, Hall.
    rewrite Hib in Hbefore, Hall. rewrite Hsb in Hall.
    split.
    { intros i Hi. rewrite Hbefore by lia. apply Hob. lia. }
    intros [|k] env' item Henv Hlk.
    + rewrite Nat.add_0_r in *. cbn [lookup list_lookup] in Henv.
      injection Henv as <-. rewrite Hbefore in Hlk by lia.
      rewrite Hcb in Hlk. injection Hlk as <-. split.
      * intros Hload. destruct (Hloaded Hload) as [img ->]. by eexists.
      * intros Hload Hnone Hget. rewrite (Hraised Hload Hget).
        rewrite Hitem in Hnone. by injection Hnone as ->.
    + cbn [lookup list_lookup] in Henv.
      replace (_all_idx v + S k) with (S (_all_idx v) + k) in * by lia.
      destruct (Hall k env' item Henv Hlk) as [Hl1 Hl2]. split; [exact Hl1|].
      intros Hload Hnone Hget. apply Hl2; [done | |].
      * rewrite Hob by lia. done.
      * change (_page_key (with_cache m c')) with (_page_key m).
        cbn [with_cache page_pix_cache].
        destruct (od_get _ (d c')) as [x|] eqn:E; [|done].
        apply Hkeep in E; [congruence|].
        unfold _page_key. intros [= Heq]. lia.
Qed.

(** X16. A render-all pass over an open document gives an image to
    every page the decoder loads: after [render_all_pages] and as many
    ticks as there are pages, the item of page [i] holds an image (the
    placeholder where rasterisation failed) when the decoder loaded the
    page on tick [i]. When the decoder raised while loading it, the tick
    went on all the same, and a page that had no image and no cache entry
    is left without an image. *)
Theorem render_all_fills_loaded_pages envs v m pages :
  model v = Some m -> model_ok m -> doc m = Some pages ->
  length (page_items v) = page_count m ->
  _all_active v = false -> length envs = page_count m ->
  exists es v1,
    ticks envs (render_all_pages v) = (Returned es, v1) /\
    length (page_items v1) = page_count m /\
    (forall i env item,
        envs !! i = Some env -> page_items v1 !! i = Some item ->
        load_page_raises env (Z.of_nat i) = false ->
        is_Some (original_img item)) /\
    (forall i env item,
        envs !! i = Some env -> page_items v1 !! i = Some item ->
        load_page_raises env (Z.of_nat i) = true ->
        page_items v !! i = Some {| original_img := None |} ->
        od_get (_page_key m (Z.of_nat i) (safe_png v)) (d (page_pix_cache m)) = None ->
        original_img item = None).
Proof.
  intros Hm Hok Hpages Hlen Hidle Henvs.
  assert (Hstart : render_all_pages v = with_scheduler v true (render_delay_ms v) 0 true).
  { unfold render_all_pages. by rewrite Hm, Hidle. }
  rewrite Hstart. set (v0 := with_scheduler v true (render_delay_ms v) 0 true).
  destruct (ticks_running envs v0 m) as (v1 & m1 & Ht & _ & _ & Hl1 & _);
    [done | done | done | simpl; lia |].
  destruct (ticks_render_all envs v0 m pages) as (es & v1' & Ht' & _ & Hall);
    [done | done | done | done | done | simpl; lia |].
  rewrite Ht in Ht'. injection Ht' as <- <-.
  rewrite Ht. eexists _, v1. split; [reflexivity|]. split; [by rewrite Hl1|].
  subst v0. cbn [with_scheduler _all_idx page_items safe_png Nat.add] in Hall.
  split.
  - intros i env item Henv Hlk. by apply (Hall i env item Henv Hlk).
  - intros i env item Henv Hlk. by apply (Hall i env item Henv Hlk).
Qed.

(** X17. Rendering a single item, clearing it and rendering it again
    restores the view exactly, model and cache order included, whenever
    the first render gave an image that is not the placeholder: the second
    render is answered from the cache, whatever the decoder would do. *)
Theorem clear_then_render_uses_cache env1 env2 v m pages p img :
  model v = Some m -> model_ok m -> doc m = Some pages ->
  length (page_items v) = page_count m -> p < page_count m ->
  page_items (PageItem._render_once env1 p v) !! p
    = Some {| original_img := Some img |} ->
  is_tile img = false ->
  PageItem._render_once env2 p (PageItem._clear p (PageItem._render_once env1 p v))
  = PageItem._render_once env1 p v.
Proof.
  intros Hm Hok Hpages Hlen Hp Hitem Himg.
  destruct (render_single_in_range env1 v m pages p Hm Hok Hpages Hp)
    as (r & c' & Hr & Hc' & _ & Hgen & _).
  assert (E1 : PageItem._render_once env1 p v
               = set_img p r (with_model v (Some (with_cache m c')))).
  { unfold PageItem._render_once. by rewrite Hr. }
  rewrite E1 in Hitem |- *.
  cbn [set_img with_items with_model page_items] in Hitem.
  rewrite list_lookup_insert_eq in Hitem by lia. injection Hitem as ->.
  destruct (Hgen img eq_refl Himg) as [Hget Hlast].
  unfold PageItem._render_once, PageItem._clear, render_single_page_raw.
  cbn [set_img with_items with_model model safe_png page_items].
  rewrite (render_page_again env2 m (Z.of_nat p) (safe_png v) pages c' img);
    [|apply Hok | done | lia | done | done | done].
  cbn [with_model with_items model safe_png render_delay_ms dpi page_items
       timer_active timer_interval _all_idx _all_active].
  unfold set_img, with_items, with_model.
  cbn [model safe_png render_delay_ms dpi page_items timer_active timer_interval
       _all_idx _all_active].
  by rewrite !list_insert_insert_eq.
Qed.

(** X18. A click on a figure anchor scrolls to the figure's page: for
    the model [open] built and the view [set_model] made for it, every
    registered figure id leads [on_anchor_clicked] to the position of the
    page item of the figure's owning page, which exists; ids that are not
    registered (0, negative, beyond the last figure) scroll nowhere. *)
Theorem anchor_click_scrolls item_y pages m v0 :
  exists m',
    open pages m = Returned m' /\
    (forall k f,
        figures m' !! k = Some f ->
        page f < length pages /\
        MainWindow.on_anchor_clicked item_y (Some m') (set_model (Some m') v0)
                                     (Z.of_nat k)
        = Some (item_y (page f))) /\
    (forall fid : Z,
        (fid <= 0 \/ Z.of_nat (length (doc_figures (mode m) pages)) < fid)%Z ->
        MainWindow.on_anchor_clicked item_y (Some m') (set_model (Some m') v0) fid
        = None).
Proof.
  eexists. split; [apply open_spec|].
  set (m' := DocModel.mk _ _ _ _ _ _ _ _ _).
  assert (Hitems : length (page_items (set_model (Some m') v0)) = length pages).
  { unfold set_model. cbn [with_items with_model page_items].
    by rewrite length_map, length_seq. }
  split.
  - intros k f Hk.
    assert (Hpage : page f < length pages).
    { subst m'. cbn [figures] in Hk. rewrite register_all_lookup in Hk.
      destruct (decide (0 < k ≤ 0 + length (doc_figures (mode m) pages)));
        [|by rewrite lookup_empty in Hk].
      destruct (figures_from_owner _ _ _ _ _ Hk) as (i & pg & Hi & Hp & _).
      apply lookup_lt_Some in Hi. simpl in Hp. lia. }
    split; [done|].
    unfold MainWindow.on_anchor_clicked.
    destruct (Z.ltb_spec (Z.of_nat k) 0) as [?|_]; [lia|].
    rewrite Nat2Z.id, Hk. unfold jump_to_page.
    destruct (index_nat (page_items (set_model (Some m') v0)) (Z.of_nat (page f)))
      as [Hpos _]; [lia|].
    rewrite Hpos, Hitems, Nat2Z.id.
    destruct (page_items (set_model (Some m') v0)) as [|it its] eqn:E;
      [simpl in Hitems; lia|].
    cbn [nonempty negb orb].
    destruct (Z.ltb_spec (Z.of_nat (page f)) 0) as [?|_]; [lia|].
    rewrite Z.geb_leb.
    destruct (Z.leb_spec (Z.of_nat (length pages)) (Z.of_nat (page f))) as [?|_]; [lia|].
    done.
  - intros fid Hfid. unfold MainWindow.on_anchor_clicked.
    destruct (Z.ltb_spec fid 0) as [?|Hpos]; [done|].
    subst m'. cbn [figures]. rewrite register_all_lookup.
    destruct (decide (0 < Z.to_nat fid ≤ 0 + length (doc_figures (mode m) pages)));
      [lia|]. by rewrite lookup_empty.
Qed.

End SessionMore.

(** Two pages: the decoder fails on the first tick after loading the
    page, and raises while loading the page on the second. *)
Lemma render_all_fills_loaded_pages_witness :
  let v := Sample.view_of [Sample.page_a; Sample.page_a] in
  let m := Sample.opened DocModel.simple [Sample.page_a; Sample.page_a] in
  let envs := [Sample.failing; Sample.unloadable] in
  exists es v1,
    PdfView.ticks envs (PdfView.render_all_pages v) = (Returned es, v1) /\
    length (PdfView.page_items v1) = DocModel.page_count m /\
    (forall i env item,
        envs !! i = Some env -> PdfView.page_items v1 !! i = Some item ->
        load_page_raises env (Z.of_nat i) = false ->
        is_Some (PdfView.original_img item)) /\
    (forall i env item,
        envs !! i = Some env -> PdfView.page_items v1 !! i = Some item ->
        load_page_raises env (Z.of_nat i) = true ->
        PdfView.page_items v !! i = Some {| PdfView.original_img := None |} ->
        LRUCache.od_get (DocModel._page_key m (Z.of_nat i) (PdfView.safe_png v))
                        (LRUCache.d (DocModel.page_pix_cache m)) = None ->
        PdfView.original_img item = None).
Proof.
  cbn zeta.
  apply (SessionMore.render_all_fills_loaded_pages [Sample.failing; Sample.unloadable]
           (Sample.view_of [Sample.page_a; Sample.page_a])
           (Sample.opened DocModel.simple [Sample.page_a; Sample.page_a])
           [Sample.page_a; Sample.page_a]);
    try reflexivity.
  apply (RenderFacts.open_ok [Sample.page_a; Sample.page_a]
           (DocModel.init 110 DocModel.simple false)).
  - apply RenderFacts.init_ok.
  - unfold Sample.opened. by rewrite ExtractionFacts.open_spec.
Defined.

Lemma clear_then_render_uses_cache_witness :
  let v := Sample.view_of [Sample.page_a] in
  PageItem._render_once Sample.failing 0
    (PageItem._clear 0 (PageItem._render_once Sample.working 0 v))
  = PageItem._render_once Sample.working 0 v.
Proof.
  cbn zeta.
  apply (SessionMore.clear_then_render_uses_cache Sample.working Sample.failing
           (Sample.view_of [Sample.page_a])
           (Sample.opened DocModel.simple [Sample.page_a]) [Sample.page_a] 0%nat
           (FromData [0; 0; 0; 0]%N)).
  - reflexivity.
  - apply (RenderFacts.open_ok [Sample.page_a] (DocModel.init 110 DocModel.simple false)).
    + apply RenderFacts.init_ok.
    + unfold Sample.opened. by rewrite ExtractionFacts.open_spec.
  - unfold Sample.opened. by rewrite ExtractionFacts.open_spec.
  - reflexivity.
  - vm_compute. lia.
  - vm_compute. reflexivity.
  - reflexivity.
Defined.

Lemma set_model_cancels_witness :
  let v := PdfView.render_all_pages (Sample.view_of [Sample.page_a]) in
  let mo := Some (Sample.opened DocModel.simple [Sample.page_a; Sample.page_a]) in
  Pass.idle (PdfView.set_model mo v) = true /\
  (forall env, PdfView.tick env (PdfView.set_model mo v)
               = (Returned [], PdfView.set_model mo v)) /\
  Forall (fun item => PdfView.original_img item = None)
         (PdfView.page_items (PdfView.set_model mo v)) /\
  (forall m, mo = Some m ->
             length (PdfView.page_items (PdfView.set_model mo v)) = DocModel.page_count m) /\
  (mo = None -> PdfView.page_items (PdfView.set_model mo v) = []).
Proof.
  cbn zeta.
  apply (ViewMore.set_model_cancels
           (Some (Sample.opened DocModel.simple [Sample.page_a; Sample.page_a]))
           (PdfView.render_all_pages (Sample.view_of [Sample.page_a]))).
  reflexivity.
Defined.
